(** * tenpy.linalg: block backend, backend factory and sparse operators

    A shallow embedding of
      - [tenpy/linalg/backends/numpy.py]            (module [NumpyBackend]),
      - [tenpy/linalg/backends/backend_factory.py]  (module [BackendFactory]),
      - [tenpy/linalg/sparse.py]                    (module [Sparse]),
    followed by the properties proved about them.

    Python exceptions are values of [Py.exn]; a call that may raise returns
    a [Py.result].  Module-level mutable state (the backend cache) is passed
    explicitly. *)

From Stdlib Require Import ZArith QArith List String Lia Ring Permutation.
From stdpp Require Import base option list strings gmap.

Local Open Scope string_scope.
Local Open Scope list_scope.

(** * Part I: the embedding *)

(** ** Python exceptions and fallible calls *)

Module Py.

Inductive exn : Type :=
| ValueError (msg : string)
| NotImplementedError (msg : string)
| KeyError (key : string)
| AssertionError
| AttributeError
| IndexError
| TypeError
| LinAlgError
| RecursionError.

Inductive result (A : Type) : Type :=
| Ok (a : A)
| Raise (e : exn).

Arguments Ok {A} a.
Arguments Raise {A} e.

Definition bind {A B : Type} (r : result A) (k : A -> result B) : result B :=
  match r with
  | Ok a => k a
  | Raise e => Raise e
  end.

Definition is_ok {A : Type} (r : result A) : bool :=
  match r with
  | Ok _ => true
  | Raise _ => false
  end.

(** [l[i]] for a Python sequence: a negative index counts from the end, an
    index out of range raises [IndexError]. *)
Definition getitem {A : Type} (l : list A) (i : Z) : result A :=
  let n := Z.of_nat (length l) in
  let j := if (i <? 0)%Z then (i + n)%Z else i in
  if (j <? 0)%Z then Raise IndexError
  else match nth_error l (Z.to_nat j) with
       | Some x => Ok x
       | None => Raise IndexError
       end.

(** [x in l] for a list of strings. *)
Definition str_in (x : string) (l : list string) : bool :=
  existsb (String.eqb x) l.

(** *** Classes with abstract methods *)

(** What a class statement contributes: the methods its body defines, and
    those among them that are decorated with [@abstractmethod]. *)
Record ClassBody : Type := mk_ClassBody {
  class_name : string;
  class_defines : list string;
  class_abstract : list string
}.

(** A class, as its method resolution order: its own body first, then those
    of its bases ([ABC] and [object] define none of the methods in question
    and are left out). *)
Abbreviation PyClass := (list ClassBody).

(** [getattr(cls, name).__isabstractmethod__]: the first body of the
    resolution order that defines [name] decides. *)
Fixpoint is_abstract (cls : PyClass) (name : string) : bool :=
  match cls with
  | [] => false
  | body :: bases =>
      if str_in name (class_defines body) then str_in name (class_abstract body)
      else is_abstract bases name
  end.

(** [cls.__abstractmethods__], as [ABCMeta] computes it: the abstract
    methods of the body and of the bases that are still abstract in [cls]. *)
Definition abstractmethods (cls : PyClass) : list string :=
  filter (fun name => is_abstract cls name = true)
    (nodup string_dec (flat_map class_abstract cls)).

(** A class [class Sub(cls)] whose body defines [methods], none abstract. *)
Definition subclass (name : string) (methods : list string) (cls : PyClass) : PyClass :=
  mk_ClassBody name methods [] :: cls.

(** [cls(...)]: [object.__new__] refuses a class that has abstract methods
    left, with TypeError (Can't instantiate abstract class); otherwise
    [__init__] runs on the new object. *)
Definition instantiate {T : Type} (cls : PyClass) (init : result T) : result T :=
  match abstractmethods cls with
  | [] => init
  | _ :: _ => Raise TypeError
  end.

End Py.

Export Py.

#[export] Instance result_ret : MRet Py.result := @Py.Ok.
#[export] Instance result_bind : MBind Py.result :=
  fun A B k r => Py.bind r k.

(** ** numpy: n-dimensional arrays *)

Module Numpy.

(** A number as numpy hands it back: an integer, or a float. *)
Inductive number : Type :=
| Int (n : nat)
| Float (x : Q).

(** An [ndarray]: its [shape] and its elements in C (row-major) order. *)
Record ndarray (A : Type) : Type := mk_ndarray {
  shape : list nat;
  data : list A
}.

Arguments mk_ndarray {A} shape data.
Arguments shape {A} _.
Arguments data {A} _.

Definition product (l : list nat) : nat := fold_right Nat.mul 1 l.

Definition ndim {A} (a : ndarray A) : nat := length (shape a).
Definition size {A} (a : ndarray A) : nat := product (shape a).

(** Every array numpy builds holds exactly [size] elements. *)
Definition wf {A} (a : ndarray A) : Prop := length (data a) = size a.

(** [np.prod(t)] for a tuple of ints: the product as an integer; the
    empty tuple is converted to an empty float64 array, so that the result
    is the float [1.0] (numpy's own example: [np.prod([])] is [1.0]). *)
Definition prod (t : list nat) : number :=
  match t with
  | [] => Float 1
  | _ => Int (product t)
  end.

(** [[l[ax] for ax in axes]] *)
Definition take_axes (axes : list nat) (l : list nat) : list nat :=
  map (fun ax => nth ax l 0) axes.

(** C-order flat position of a multi-index, and back. *)
Fixpoint ravel (shp idx : list nat) : nat :=
  match shp, idx with
  | _ :: shp', i :: idx' => i * product shp' + ravel shp' idx'
  | _, _ => 0
  end.

Fixpoint unravel (shp : list nat) (k : nat) : list nat :=
  match shp with
  | [] => []
  | _ :: shp' => k / product shp' :: unravel shp' (k mod product shp')
  end.

(** Position of [x] in [l] ([len l] when absent). *)
Fixpoint index_of (x : nat) (l : list nat) : nat :=
  match l with
  | [] => 0
  | y :: l' => if Nat.eqb x y then 0 else S (index_of x l')
  end.

(** [axes] is a rearrangement of [0, ..., n-1]. *)
Definition is_permutation (n : nat) (axes : list nat) : bool :=
  Nat.eqb (length axes) n && forallb (fun m => existsb (Nat.eqb m) axes) (seq 0 n).

(** [idx] is a multi-index into an array of shape [shp]. *)
Definition in_bounds (shp idx : list nat) : Prop := Forall2 lt idx shp.

(** [a[idx]] *)
Definition item {A} (a : ndarray A) (idx : list nat) : option A :=
  data a !! ravel (shape a) idx.

(** The multi-index [j] with [j[axes[k]] = i[k]]. *)
Definition source_index (axes i : list nat) : list nat :=
  map (fun m => nth (index_of m axes) i 0) (seq 0 (length axes)).

(** [np.transpose(a, axes)]: axis [k] of the result is axis [axes[k]] of
    [a], so the element at multi-index [i] of the result is the element of
    [a] at the multi-index [j] with [j[axes[k]] = i[k]].  [ValueError] when
    [axes] is not a rearrangement of the axes of [a]. *)
Definition transpose {A} (a : ndarray A) (axes : list nat) : result (ndarray A) :=
  if is_permutation (ndim a) axes then
    let shp := take_axes axes (shape a) in
    let source (k : nat) : option A := item a (source_index axes (unravel shp k)) in
    Ok (mk_ndarray shp (omap source (seq 0 (product shp))))
  else Raise (ValueError "axes don't match array").

(** [np.reshape(a, newshape)] (C order): the elements stay in place and the
    shape changes.  A dimension that is not an integer is refused with
    [TypeError], a shape of another size with [ValueError]. *)
Fixpoint as_ints (newshape : list number) : option (list nat) :=
  match newshape with
  | [] => Some []
  | Int n :: rest => cons n <$> as_ints rest
  | Float _ :: _ => None
  end.

Definition reshape {A} (a : ndarray A) (newshape : list number) : result (ndarray A) :=
  match as_ints newshape with
  | None => Raise TypeError
  | Some shp =>
      if Nat.eqb (product shp) (size a) then Ok (mk_ndarray shp (data a))
      else Raise (ValueError "cannot reshape array")
  end.

(** *** Dimensions handed in by a caller *)

(** numpy multiplies integers in int64, which wraps around without notice. *)
Definition int64 (z : Z) : Z := ((z + 2 ^ 63) mod 2 ^ 64 - 2 ^ 63)%Z.

(** [np.prod(l)] for a list of Python ints (dimensions, each below 2^63), of
    which numpy makes an int64 array: the product in int64, and the float
    [1.0] for the empty list, as for [prod]. *)
Definition prod_int64 (l : list nat) : Z + Q :=
  match l with
  | [] => inr 1%Q
  | _ => inl (int64 (Z.of_nat (product l)))
  end.

(** numpy builds no array whose size in bytes, with a dimension zero
    counted as one, exceeds the largest int64 (ValueError: array is too
    big). *)
Definition fits (itemsize : nat) (shp : list nat) : bool :=
  (Z.of_nat itemsize * Z.of_nat (product (map (Nat.max 1) shp)) <? 2 ^ 63)%Z.

(** [np.eye(N)]: the N x N array with ones on the diagonal and zeros
    elsewhere; a float [N] is refused with TypeError, a negative [N] and one
    too big for an array with ValueError. *)
Definition eye {A} (zero one : A) (itemsize : nat) (N : Z + Q) : result (ndarray A) :=
  match N with
  | inl z =>
      if (z <? 0)%Z then Raise (ValueError "negative dimensions are not allowed")
      else
        let n := Z.to_nat z in
        if fits itemsize [n; n] then
          Ok (mk_ndarray [n; n]
                (map (fun k => if Nat.eqb (k / n) (k mod n) then one else zero)
                   (seq 0 (n * n))))
        else Raise (ValueError "array is too big")
  | inr _ => Raise TypeError
  end.

(** [np.reshape(a, newshape)] for a shape handed in by a caller: as
    [reshape], and the array of the new shape is built only if it [fits]. *)
Definition reshape_to {A} (itemsize : nat) (a : ndarray A) (newshape : list number)
    : result (ndarray A) :=
  r ← reshape a newshape;
  if fits itemsize (shape r) then Ok r else Raise (ValueError "array is too big").

(** [np.trace(a, axis1=0, axis2=1)] of an array with two axes: the sum of
    its diagonal.  (With fewer axes numpy raises ValueError; with more it
    returns an array, which does not occur below.) *)
Definition trace {A} (zero : A) (add : A -> A -> A) (a : ndarray A) : result A :=
  match shape a with
  | [rows; cols] =>
      Ok (fold_left add (omap (fun i => data a !! (i * cols + i)) (seq 0 (min rows cols))) zero)
  | _ => Raise (ValueError "diag requires an array of at least two dimensions")
  end.

(** [np.tensordot(a, b, ((), ()))]: no axis is summed over, the result has
    the axes of [a] followed by those of [b] and holds every product. *)
Definition tensordot_no_axes {A} (mul : A -> A -> A) (a b : ndarray A) : ndarray A :=
  mk_ndarray (shape a ++ shape b) (flat_map (fun x => map (mul x) (data b)) (data a)).
End Numpy.

(** ** Python slices *)

Module PySlice.
(** [l[:k]] and [l[k:]] for a Python list: a negative [k] counts from the
    end, and a bound out of range is clipped. *)
Definition clip {A : Type} (l : list A) (k : Z) : nat :=
  let n := Z.of_nat (length l) in
  Z.to_nat (if (k <? 0)%Z then Z.max 0 (k + n) else Z.min k n).

Definition slice_to {A : Type} (l : list A) (k : Z) : list A := firstn (clip l k) l.
Definition slice_from {A : Type} (l : list A) (k : Z) : list A := skipn (clip l k) l.
End PySlice.

(** ** tenpy/linalg/backends/numpy.py *)

Module NumpyBackend.

Import Numpy.

(** Modelled from the spec: [inverse_permutation] lives in [tenpy/linalg/misc.py],
    which is not among the sources; the spec has matrixify remember "the
    original shape/permutation so the result can be restored", so it is the
    inverse rearrangement: [inv_perm[perm[i]] = i]. *)
Definition inverse_permutation (perm : list nat) : list nat :=
  map (fun m => index_of m perm) (seq 0 (length perm)).

Section Blocks.

Context {A : Type}.

(** A block of [NumpyBlockBackend] is an [np.ndarray]. *)
Definition Block : Type := ndarray A.

(** The auxiliary data of [block_matrixify]: [(permutation, a_shape)]. *)
Definition Aux : Type := (list nat * list nat)%type.

Definition block_matrixify (a : Block) (idcs1 idcs2 : list nat) : result (Block * Aux) :=
  let permutation := idcs1 ++ idcs2 in
  a ← transpose a permutation;
  let a_shape := shape a in
  let matrix_shape :=
    [prod (firstn (length idcs1) a_shape); prod (skipn (length idcs1) a_shape)] in
  matrix ← reshape a matrix_shape;
  let aux := (permutation, a_shape) in
  Ok (matrix, aux).

Definition block_dematrixify (matrix : Block) (aux : Aux) : result Block :=
  let '(permutation, a_shape) := aux in
  res ← reshape matrix (map Int a_shape);
  transpose res (inverse_permutation permutation).

(** *** [matrix_svd] *)

Definition svd_algorithms : list string :=
  ["gesdd"; "gesvd"; "robust"; "robust_silent"].

Definition USV : Type := (Block * Block * Block)%type.

(** The decompositions a call attempts, in order: the default driver
    [scipy.linalg.svd(a, full_matrices=False)] and the fallback
    [_svd_gesvd(a)]. *)
Inductive Call : Type :=
| call_scipy_svd (a : Block)
| call_svd_gesvd (a : Block).

(** [scipy.linalg.svd] is the external numerical kernel: it returns the three
    factors or raises (LinAlgError when it does not converge). *)
Variable scipy_linalg_svd : Block -> result USV.

Definition scipy_svd (a : Block) : list Call * result USV :=
  ([call_scipy_svd a], scipy_linalg_svd a).

Definition _svd_gesvd (a : Block) : list Call * result USV :=
  ([call_svd_gesvd a], Raise (NotImplementedError "")).

Definition matrix_svd (a : Block) (algorithm : option string) : list Call * result USV :=
  let algorithm := match algorithm with None => "gesdd" | Some s => s end in
  if String.eqb algorithm "gesdd" then
    scipy_svd a
  else if str_in algorithm ["robust"; "robust_silent"] then
    let silent := String.eqb algorithm "robust_silent" in
    let '(calls, r) := scipy_svd a in
    match r with
    | Ok usv => (calls, Ok usv)
    | Raise LinAlgError =>
        if negb silent then (calls, Raise (NotImplementedError ""))
        else let '(calls', r') := _svd_gesvd a in (calls ++ calls', r')
    | Raise e => (calls, Raise e)
    end
  else if String.eqb algorithm "gesvd" then
    _svd_gesvd a
  else
    ([], Raise (ValueError ("SVD algorithm not supported: " ++ algorithm))).

End Blocks.

Arguments Block A : clear implicits.
Arguments USV A : clear implicits.
Arguments Call A : clear implicits.

(** *** [block_outer] *)

Section Outer.

Context {A : Type}.

(** The product of the dtype. *)
Variable mul : A -> A -> A.

Definition block_outer (a b : Block A) : Block A := tensordot_no_axes mul a b.

End Outer.

(** *** [block_trace_full] *)

Section Trace.

Context {A : Type}.

(** The zero and the addition of the dtype. *)
Variable zero : A.
Variable add : A -> A -> A.

Definition block_trace_full (a : Block A) (idcs1 idcs2 : list nat) : result A :=
  a ← transpose a (idcs1 ++ idcs2);
  let trace_dim := prod (firstn (length idcs1) (shape a)) in
  a ← reshape a [trace_dim; trace_dim];
  trace zero add a.

(** The traced elements, read from the block itself. *)
Definition traced (a : Block A) (idcs1 idcs2 : list nat) : list A :=
  let s1 := take_axes idcs1 (shape a) in
  let s2 := take_axes idcs2 (shape a) in
  omap (fun k => item a (source_index (idcs1 ++ idcs2) (unravel s1 k ++ unravel s2 k)))
    (seq 0 (product s1)).

End Trace.

(** *** [eye_block] *)

Section Eye.

Context {A : Type}.

(** The zero and the one of the dtype, and the size of an element in bytes. *)
Variable zero one : A.
Variable itemsize : nat.

Definition eye_block (legs : list nat) : result (Block A) :=
  let matrix_dim := prod_int64 legs in
  eye ← eye zero one itemsize matrix_dim;
  reshape_to itemsize eye (map Int (legs ++ legs)).
End Eye.

(** *** [_block_repr_lines] *)

Section Repr.

Import PySlice.

Context {A : Type}.

(** [str(a).split('\n')] under [np.printoptions(linewidth=...)]: the text of
    an array is numpy's. *)
Variable str_lines : Block A -> Z -> list string.

Definition _block_repr_lines (a : Block A) (indent : string) (max_width max_lines : Z)
    : list string :=
  let lines :=
    map (fun line => (indent ++ line)%string)
      (str_lines a (max_width - Z.of_nat (String.length indent))) in
  if (Z.of_nat (length lines) >? max_lines)%Z then
    let first := ((max_lines - 1) / 2)%Z in
    let last := (max_lines - 1 - first)%Z in
    slice_to lines first ++ [(indent ++ "...")%string] ++ slice_from lines (- last)
  else lines.

End Repr.

(** The lines of a text of five lines, whatever the block and the width. *)
Definition five_lines : Block nat -> Z -> list string :=
  fun _ _ => ["[[0 1]"; " [2 3]"; " [4 5]"; " [6 7]"; " [8 9]]"].

(** An SVD driver that returns its argument three times. *)
Definition echo_svd : Block Z -> result (USV Z) := fun a => Ok (a, a, a).

(** A 2x2 matrix of integers. *)
Definition block_2x2 : Block Z := mk_ndarray [2; 2] [1; 2; 3; 4]%Z.

(** A 4x3 matrix of other elements. *)
Definition matrix_4x3 : Block nat := mk_ndarray [4; 3] (seq 100 12).

(** A 2x3 block and a 2x3x2 block. *)
Definition block_2x3 : Block nat := mk_ndarray [2; 3] [0; 1; 2; 3; 4; 5].
Definition block_2x3x2 : Block nat := mk_ndarray [2; 3; 2] (seq 0 12).

(** An SVD driver that never converges, and a 1x1 block. *)
Definition diverging_svd : Block Z -> result (USV Z) := fun _ => Raise LinAlgError.
Definition block_1x1 : Block Z := mk_ndarray [1; 1] [0%Z].

End NumpyBackend.

(** ** tenpy/linalg/backends/backend_factory.py *)

Module BackendFactory.

(** The symmetry classes of [tenpy/linalg/groups.py] are not among the
    sources; [get_backend] uses a symmetry through [symmetry == no_symmetry]
    and [symmetry.is_abelian] only. *)
Class SymmetryModel (Symmetry : Type) : Type := {
  no_symmetry : Symmetry;
  symmetry_eq : Symmetry -> Symmetry -> bool;
  is_abelian : Symmetry -> bool
}.

(** The backend classes the lookup table names. *)
Inductive BackendCls : Type :=
| NoSymmetryNumpyBackend
| NoSymmetryTorchBackend
| AbelianNumpyBackend
| AbelianTorchBackend.

(** Keyword arguments, [kwargs.items()]. *)
Abbreviation Kwargs := (list (string * string)).

(** The call of [cls] with the keyword arguments [kwargs].  The backend
    classes are built from the abstract
    backends of [abstract_backend.py] and from [torch.py], which are not among
    the sources: a constructor returns the new object, or raises. *)
Class BackendConstructors : Type :=
  construct : BackendCls -> Kwargs -> result unit.

Definition _backend_lookup : gmap string (gmap string (option (BackendCls * Kwargs))) :=
  list_to_map [
    ("no_symmetry", list_to_map [
      ("numpy", Some (NoSymmetryNumpyBackend, []));
      ("torch", Some (NoSymmetryTorchBackend, []));
      ("tensorflow", None);
      ("jax", None);
      ("cpu", Some (NoSymmetryNumpyBackend, []));
      ("gpu", Some (NoSymmetryTorchBackend, [("device", "cuda")]));
      ("tpu", None)]);
    ("abelian", list_to_map [
      ("numpy", Some (AbelianNumpyBackend, []));
      ("torch", Some (AbelianTorchBackend, []));
      ("tensorflow", None);
      ("jax", None);
      ("cpu", Some (AbelianNumpyBackend, []));
      ("gpu", Some (AbelianTorchBackend, [("device", "cuda")]));
      ("tpu", None)]);
    ("non_abelian", list_to_map [
      ("numpy", None);
      ("torch", None);
      ("tensorflow", None);
      ("jax", None);
      ("cpu", None);
      ("gpu", None);
      ("tpu", None)])
  ].

(** A backend instance is a Python object: it is known by its reference, the
    position at which it was allocated among all backend objects. *)
Abbreviation Ref := nat (only parsing).

(** [(symmetry_backend, block_backend, tuple(kwargs.items()))] *)
Abbreviation Key := (string * string * Kwargs)%type.

(** The module state: the dict [_instantiated_backends], and every backend
    object constructed so far. *)
Record State : Type := mk_State {
  _instantiated_backends : gmap Key Ref;
  objects : list (BackendCls * Kwargs)
}.

Definition initial : State := mk_State ∅ [].

Definition block_backends : list string :=
  ["numpy"; "torch"; "tensorflow"; "jax"; "cpu"; "gpu"; "tpu"].

Definition symmetry_backends : list string :=
  ["no_symmetry"; "abelian"; "nonabelian"].

Section GetBackend.

Context {Symmetry : Type} `{SymmetryModel Symmetry} `{BackendConstructors}.

(** The kind chosen when [symmetry_backend is None]. *)
Definition select_symmetry_backend (symmetry : Symmetry) : string :=
  if symmetry_eq symmetry no_symmetry then "no_symmetry"
  else if is_abelian symmetry then "abelian"
  else "nonabelian".

(** [get_backend] up to the cache: the assertions, the selection of the
    kind, the table lookup and the cache key. *)
Definition resolve (symmetry : Symmetry) (block_backend : string)
    (symmetry_backend : option string) : result (BackendCls * Kwargs * Key) :=
  if negb (str_in block_backend block_backends) then Raise AssertionError else
  let symmetry_backend :=
    match symmetry_backend with
    | None => select_symmetry_backend symmetry
    | Some s => s
    end in
  if negb (str_in symmetry_backend symmetry_backends) then Raise AssertionError else
  match _backend_lookup !! symmetry_backend with
  | None => Raise (KeyError symmetry_backend)
  | Some row =>
      match row !! block_backend with
      | None => Raise (KeyError block_backend)
      | Some None =>
          Raise (NotImplementedError
                   ("Backend not implemented " ++ symmetry_backend ++ " & " ++ block_backend))
      | Some (Some (cls, kwargs)) =>
          Ok (cls, kwargs, (symmetry_backend, block_backend, kwargs))
      end
  end.

Definition get_backend (symmetry : Symmetry) (block_backend : string)
    (symmetry_backend : option string) (st : State) : result Ref * State :=
  match resolve symmetry block_backend symmetry_backend with
  | Raise e => (Raise e, st)
  | Ok (cls, kwargs, key) =>
      match _instantiated_backends st !! key with
      | None =>
          match construct cls kwargs with
          | Raise e => (Raise e, st)
          | Ok _ =>
              let backend := length (objects st) in
              (Ok backend,
               mk_State (<[key := backend]> (_instantiated_backends st))
                        (objects st ++ [(cls, kwargs)]))
          end
      | Some backend => (Ok backend, st)
      end
  end.

(** [get_default_backend(symmetry)]: [get_backend] with its defaults. *)
Definition get_default_backend (symmetry : option Symmetry) (st : State)
    : result nat * State :=
  match symmetry with
  | None => get_backend no_symmetry "numpy" None st
  | Some symmetry => get_backend symmetry "numpy" None st
  end.

(** One call of [get_backend], as a step of the module state. *)
Inductive step : State -> State -> Prop :=
| step_call symmetry block_backend symmetry_backend st :
    step st (get_backend symmetry block_backend symmetry_backend st).2.

(** The states the module can be in: any number of calls after import. *)
Inductive reachable : State -> Prop :=
| reachable_initial : reachable initial
| reachable_step st st' : reachable st -> step st st' -> reachable st'.

(** Any number of calls. *)
Inductive steps : State -> State -> Prop :=
| steps_refl st : steps st st
| steps_cons st st' st'' : step st st' -> steps st' st'' -> steps st st''.

End GetBackend.

(** Every backend object constructed so far is the cached instance of
    exactly one key, and every cached reference is such an object. *)
Definition one_instance_per_key (st : State) : Prop :=
  (forall key backend,
     _instantiated_backends st !! key = Some backend -> backend < length (objects st)) /\
  (forall backend, backend < length (objects st) ->
     exists key, _instantiated_backends st !! key = Some backend /\
       forall key', _instantiated_backends st !! key' = Some backend -> key' = key).

(** A small family of symmetries to run [get_backend] on: the trivial one,
    two abelian groups and a non-abelian one. *)
Inductive Group : Type :=
| NoSymmetry
| U1Symmetry
| ZNSymmetry (N : nat)
| SU2Symmetry.

Definition Group_eq (g h : Group) : bool :=
  match g, h with
  | NoSymmetry, NoSymmetry | U1Symmetry, U1Symmetry | SU2Symmetry, SU2Symmetry => true
  | ZNSymmetry n, ZNSymmetry m => Nat.eqb n m
  | _, _ => false
  end.

#[export] Instance Group_model : SymmetryModel Group := {|
  no_symmetry := NoSymmetry;
  symmetry_eq := Group_eq;
  is_abelian g := match g with SU2Symmetry => false | _ => true end
|}.

(** Constructors that return, to run [get_backend] with. *)
#[export] Instance constructors_return : BackendConstructors := fun _ _ => Ok tt.

(** The entry of the table for a key. *)
Definition lookup_entry (key : Key) : option (BackendCls * Kwargs) :=
  match _backend_lookup !! key.1.1 with
  | Some row => match row !! key.1.2 with
                | Some (Some (cls, kwargs)) =>
                    if decide (kwargs = key.2) then Some (cls, kwargs) else None
                | _ => None
                end
  | None => None
  end.

(** The cached instance of a key is an object of the class, with the
    options, that the table gives for the key. *)
Definition cache_consistent (st : State) : Prop :=
  forall key backend, _instantiated_backends st !! key = Some backend ->
    exists entry, lookup_entry key = Some entry /\ objects st !! backend = Some entry.

(** The keys that have an implementation. *)
Definition implemented_keys : list Key :=
  [("no_symmetry", "numpy", []); ("no_symmetry", "torch", []);
   ("no_symmetry", "cpu", []); ("no_symmetry", "gpu", [("device", "cuda")]);
   ("abelian", "numpy", []); ("abelian", "torch", []);
   ("abelian", "cpu", []); ("abelian", "gpu", [("device", "cuda")])].

(** The cache holds one entry for each object, under implemented keys. *)
Definition cache_counted (st : State) : Prop :=
  size (_instantiated_backends st) = length (objects st) /\
  forall key backend, _instantiated_backends st !! key = Some backend ->
    In key implemented_keys.

(** Two calls for the trivial symmetry on numpy, the second naming the kind,
    with a call for an abelian symmetry on the gpu in between. *)
Definition after_first : State := (get_backend NoSymmetry "numpy" None initial).2.
Definition after_second : State := (get_backend U1Symmetry "gpu" None after_first).2.

End BackendFactory.

(** ** tenpy/linalg/sparse.py *)

Module Sparse.

(** [tenpy/linalg/tensors.py] is not among the sources.  The operators use
    the tensors of one vector shape [V] with scalars [K] through [a + b],
    [a - b], [c * a] and [a.inner(b)], and scalars through [penalty * c]. *)
Class TensorOps (K V : Type) : Type := {
  k_zero : K;
  k_one : K;
  k_add : K -> K -> K;
  k_mul : K -> K -> K;
  k_sub : K -> K -> K;
  k_opp : K -> K;
  t_zero : V;
  t_add : V -> V -> V;
  t_sub : V -> V -> V;
  t_scale : K -> V -> V;
  t_inner : V -> V -> K
}.

Declare Scope tensor_scope.
Delimit Scope tensor_scope with T.
Infix "+" := t_add : tensor_scope.
Infix "-" := t_sub : tensor_scope.
Infix "*" := t_scale : tensor_scope.
Notation "a ** b" := (k_mul a b) (at level 40, left associativity) : tensor_scope.

(** Exact arithmetic: the scalars form a commutative ring, the tensors a
    module over it, and [inner] is linear in its second argument. *)
Class TensorLaws (K V : Type) `{TensorOps K V} : Prop := {
  k_ring : ring_theory k_zero k_one k_add k_mul k_sub k_opp (@eq K);
  t_add_comm a b : (a + b = b + a)%T;
  t_add_assoc a b c : (a + (b + c) = (a + b) + c)%T;
  t_add_zero a : (a + t_zero = a)%T;
  t_sub_add a b : (a - b = a + k_opp k_one * b)%T;
  t_scale_one a : (k_one * a = a)%T;
  t_scale_mul c d a : ((c ** d) * a = c * (d * a))%T;
  t_scale_add_l c d a : (k_add c d * a = c * a + d * a)%T;
  t_scale_add_r c a b : (c * (a + b) = c * a + c * b)%T;
  t_scale_zero a : (k_zero * a = t_zero)%T;
  t_inner_add o a b : t_inner o (a + b)%T = k_add (t_inner o a) (t_inner o b);
  t_inner_scale o c a : t_inner o (c * a)%T = (c ** t_inner o a)%T
}.

(** *** The classes of the module *)

(** The class statements of [sparse.py], each with the methods its body
    defines.  [TenpyLinearOperator] declares [matvec] and [to_matrix]
    abstract; the operator classes define [matvec], and no class of the
    module defines [to_matrix]. *)
Definition TenpyLinearOperator_body : ClassBody :=
  mk_ClassBody "TenpyLinearOperator"
    ["__init__"; "matvec"; "to_matrix"; "adjoint"] ["matvec"; "to_matrix"].

Definition TensorLinearOperator_body : ClassBody :=
  mk_ClassBody "TensorLinearOperator" ["__init__"; "matvec"; "adjoint"] [].

Definition TenpyLinearOperatorWrapper_body : ClassBody :=
  mk_ClassBody "TenpyLinearOperatorWrapper" ["__init__"; "__getattr__"; "unwrapped"] [].

Definition SumTenpyLinearOperator_body : ClassBody :=
  mk_ClassBody "SumTenpyLinearOperator" ["__init__"; "matvec"; "adjoint"] [].

Definition ShiftedTenpyLinearOperator_body : ClassBody :=
  mk_ClassBody "ShiftedTenpyLinearOperator" ["__init__"; "matvec"; "adjoint"] [].

Definition ProjectedTenpyLinearOperator_body : ClassBody :=
  mk_ClassBody "ProjectedTenpyLinearOperator" ["__init__"; "matvec"; "adjoint"] [].

Definition TenpyLinearOperator_class : PyClass := [TenpyLinearOperator_body].

Definition TensorLinearOperator_class : PyClass :=
  TensorLinearOperator_body :: TenpyLinearOperator_class.

Definition TenpyLinearOperatorWrapper_class : PyClass :=
  TenpyLinearOperatorWrapper_body :: TenpyLinearOperator_class.

Definition SumTenpyLinearOperator_class : PyClass :=
  SumTenpyLinearOperator_body :: TenpyLinearOperatorWrapper_class.

Definition ShiftedTenpyLinearOperator_class : PyClass :=
  ShiftedTenpyLinearOperator_body :: TenpyLinearOperatorWrapper_class.

Definition ProjectedTenpyLinearOperator_class : PyClass :=
  ProjectedTenpyLinearOperator_body :: TenpyLinearOperatorWrapper_class.

(** A subclass that supplies [to_matrix] and inherits everything else. *)
Definition with_to_matrix (cls : PyClass) : PyClass := subclass "Dense" ["to_matrix"] cls.

Section Operators.

Context {K V : Type} `{TensorOps K V}.

(** The operator objects: the instances of the wrapper classes (and of
    their subclasses that inherit [matvec]), with the attributes that
    [__init__] sets.  [BaseOperator] stands for an instance of any concrete
    [TenpyLinearOperator] that is not a wrapper, given by its [matvec]. *)
#[warnings="-register-all"] Inductive Operator : Type :=
| BaseOperator (matvec : V -> V)
| SumTenpyLinearOperator (original_operator : Operator) (more_operators : list Operator)
| ShiftedTenpyLinearOperator (original_operator : Operator) (shift : K)
| ProjectedTenpyLinearOperator (original_operator : Operator) (ortho_vecs : list V)
    (penalty : option K).

(** The first loop of [ProjectedTenpyLinearOperator.matvec]: [(res, coefficients)]. *)
Definition project_keep (ortho_vecs : list V) (vec : V) : V * list K :=
  fold_left
    (fun '(res, coefficients) o =>
       let c := t_inner o res in
       ((res - c * o)%T, coefficients ++ [c]))
    ortho_vecs (vec, []).

(** The loop [for o in <vecs>: res = res - o.inner(res) * o]. *)
Definition project_out (vecs : list V) (res : V) : V :=
  fold_left (fun res o => (res - t_inner o res * o)%T) vecs res.

(** One step of that loop, [res - o.inner(res) * o]. *)
Definition remove (o res : V) : V := (res - t_inner o res * o)%T.

(** The loop [for c, o in zip(coefficients, ortho_vecs): res = res + penalty * c * o]. *)
Definition add_penalty (penalty : K) (coefficients : list K) (ortho_vecs : list V)
    (res : V) : V :=
  fold_left (fun res '(c, o) => (res + (penalty ** c) * o)%T)
    (combine coefficients ortho_vecs) res.

(** The body of [ProjectedTenpyLinearOperator.matvec], with the sequence the
    second loop runs over as [second_pass] ([reversed(self.ortho_vecs)] in the
    source). *)
Definition projected_matvec (second_pass : list V) (original_matvec : V -> V)
    (ortho_vecs : list V) (penalty : option K) (vec : V) : V :=
  let '(res, coefficients) := project_keep ortho_vecs vec in
  let res := original_matvec res in
  let res := project_out second_pass res in
  match penalty with
  | Some penalty => add_penalty penalty coefficients ortho_vecs res
  | None => res
  end.

Fixpoint matvec (self : Operator) (vec : V) : V :=
  match self with
  | BaseOperator f => f vec
  | SumTenpyLinearOperator original_operator more_operators =>
      fold_left (fun acc op => (acc + matvec op vec)%T) more_operators
        (matvec original_operator vec)
  | ShiftedTenpyLinearOperator original_operator shift =>
      (matvec original_operator vec + shift * vec)%T
  | ProjectedTenpyLinearOperator original_operator ortho_vecs penalty =>
      projected_matvec (rev ortho_vecs) (matvec original_operator) ortho_vecs penalty vec
  end.

(** The constructor calls [cls(...)], for the class named or a subclass
    that inherits its [__init__]: the class is instantiated, which fails for
    a class with abstract methods, and [__init__] sets the attributes.  The
    one of the projected operator stores [gram_schmidt(ortho_vecs)];
    [gram_schmidt] is imported from [tenpy/linalg/lanczos.py], which is not
    among the sources. *)
Definition SumTenpyLinearOperator_new (cls : PyClass)
    (original_operator : Operator) (more_operators : list Operator) : result Operator :=
  instantiate cls (Ok (SumTenpyLinearOperator original_operator more_operators)).

Definition ShiftedTenpyLinearOperator_new (cls : PyClass)
    (original_operator : Operator) (shift : K) : result Operator :=
  instantiate cls (Ok (ShiftedTenpyLinearOperator original_operator shift)).

Definition ProjectedTenpyLinearOperator_new (cls : PyClass) (gram_schmidt : list V -> list V)
    (original_operator : Operator) (ortho_vecs : list V) (penalty : option K)
    : result Operator :=
  instantiate cls
    (Ok (ProjectedTenpyLinearOperator original_operator (gram_schmidt ortho_vecs) penalty)).

(** [self.original_operator]: set by [TenpyLinearOperatorWrapper.__init__],
    absent on an operator that is not a wrapper. *)
Definition original_operator (self : Operator) : option Operator :=
  match self with
  | BaseOperator _ => None
  | SumTenpyLinearOperator o _ => Some o
  | ShiftedTenpyLinearOperator o _ => Some o
  | ProjectedTenpyLinearOperator o _ _ => Some o
  end.

Definition is_wrapper (self : Operator) : bool :=
  match original_operator self with Some _ => true | None => false end.

(** The loop of [unwrapped]: [n] iterations are left, [call p] is
    [p.unwrapped()]. *)
Fixpoint unwrap_loop (call : Operator -> result Operator) (n : nat) (parent : Operator)
    : result Operator :=
  match n with
  | O => Raise (ValueError "maximum recursion depth for unwrapping reached")
  | S n' =>
      match call parent with
      | Ok parent' => unwrap_loop call n' parent'
      | Raise AttributeError => Ok parent
      | Raise e => Raise e
      end
  end.

Definition max_unwrap : nat := N.to_nat 10000.

Arguments max_unwrap : simpl never.

(** [self.unwrapped(recursive)].  The method calls itself through
    [parent.unwrapped()]; [depth] is the number of nested Python calls the
    interpreter still allows ([RecursionError] beyond).  On an operator that
    is not a wrapper the attribute lookup fails with [AttributeError]. *)
Fixpoint unwrapped (depth : nat) (self : Operator) (recursive : bool) : result Operator :=
  match depth with
  | O => Raise RecursionError
  | S depth' =>
      match original_operator self with
      | None => Raise AttributeError
      | Some parent =>
          if negb recursive then Ok parent
          else unwrap_loop (fun p => unwrapped depth' p true) max_unwrap parent
      end
  end.

(** The number of wrappers around the innermost operator, and that operator. *)
Fixpoint wrap_depth (op : Operator) : nat :=
  match op with
  | BaseOperator _ => 0
  | SumTenpyLinearOperator o _ => S (wrap_depth o)
  | ShiftedTenpyLinearOperator o _ => S (wrap_depth o)
  | ProjectedTenpyLinearOperator o _ _ => S (wrap_depth o)
  end.

Fixpoint innermost (op : Operator) : Operator :=
  match op with
  | BaseOperator _ => op
  | SumTenpyLinearOperator o _ => innermost o
  | ShiftedTenpyLinearOperator o _ => innermost o
  | ProjectedTenpyLinearOperator o _ _ => innermost o
  end.

(** Following the [original_operator] reference [n] times. *)
Fixpoint follow (n : nat) (op : Operator) : option Operator :=
  match n with
  | O => Some op
  | S n' => match original_operator op with
            | Some parent => follow n' parent
            | None => None
            end
  end.

(** A linear map on the tensors of the vector shape. *)
Definition linear (f : V -> V) : Prop :=
  (forall a b, f (a + b)%T = (f a + f b)%T) /\
  (forall c a, f (c * a)%T = (c * f a)%T).

(** [vecs[i].inner(vecs[j])] is one for [i = j] and zero otherwise. *)
Definition orthonormal (vecs : list V) : Prop :=
  forall i j oi oj, vecs !! i = Some oi -> vecs !! j = Some oj ->
    t_inner oi oj = if Nat.eqb i j then k_one else k_zero.

(** Every operator at the leaves of [op] is linear. *)
Fixpoint bases_linear (op : Operator) : Prop :=
  match op with
  | BaseOperator f => linear f
  | SumTenpyLinearOperator o more =>
      bases_linear o /\
      (fix all (l : list (Operator)) : Prop :=
         match l with
         | [] => True
         | x :: l' => bases_linear x /\ all l'
         end) more
  | ShiftedTenpyLinearOperator o _ => bases_linear o
  | ProjectedTenpyLinearOperator o _ _ => bases_linear o
  end.
End Operators.

Arguments Operator K V : clear implicits.

(** Tensors with two integer components, to run the operators on. *)
#[export] Instance plane_ops : TensorOps Z (Z * Z) := {|
  k_zero := 0%Z;
  k_one := 1%Z;
  k_add := Z.add;
  k_mul := Z.mul;
  k_sub := Z.sub;
  k_opp := Z.opp;
  t_zero := (0, 0)%Z;
  t_add a b := (a.1 + b.1, a.2 + b.2)%Z;
  t_sub a b := (a.1 - b.1, a.2 - b.2)%Z;
  t_scale c a := (c * a.1, c * a.2)%Z;
  t_inner a b := (a.1 * b.1 + a.2 * b.2)%Z
|}.

(** Operators on these tensors: a shift around a projection around the swap of the two components. *)
Definition swap : Operator Z (Z * Z) := BaseOperator (fun v => (v.2, v.1)).
Definition wrapped_swap : Operator Z (Z * Z) :=
  ShiftedTenpyLinearOperator (ProjectedTenpyLinearOperator swap [(1, 0)%Z] None) 2%Z.

(** A diagonal operator, and two unit vectors. *)
Definition stretch : Operator Z (Z * Z) := BaseOperator (fun v => (2 * v.1, 3 * v.2)%Z).
Definition e1 : Z * Z := (1, 0)%Z.
Definition e2 : Z * Z := (0, 1)%Z.

(** [n] shifts, one around the other, around the swap. *)
Definition shifted_chain (n : nat) : Operator Z (Z * Z) :=
  Nat.iter n (fun op => ShiftedTenpyLinearOperator op 1%Z) swap.

(** Tensors with three integer components, an operator that mixes them, and
    two of the three unit vectors. *)
#[export] Instance space_ops : TensorOps Z (Z * Z * Z) := {|
  k_zero := 0%Z;
  k_one := 1%Z;
  k_add := Z.add;
  k_mul := Z.mul;
  k_sub := Z.sub;
  k_opp := Z.opp;
  t_zero := (0, 0, 0)%Z;
  t_add a b := (a.1.1 + b.1.1, a.1.2 + b.1.2, a.2 + b.2)%Z;
  t_sub a b := (a.1.1 - b.1.1, a.1.2 - b.1.2, a.2 - b.2)%Z;
  t_scale c a := (c * a.1.1, c * a.1.2, c * a.2)%Z;
  t_inner a b := (a.1.1 * b.1.1 + a.1.2 * b.1.2 + a.2 * b.2)%Z
|}.

Definition mix : Operator Z (Z * Z * Z) :=
  BaseOperator (fun v => (v.1.1 + v.2, v.1.2 + 2 * v.2, v.1.1 + v.2)%Z).
Definition u1 : Z * Z * Z := (1, 0, 0)%Z.
Definition u2 : Z * Z * Z := (0, 1, 0)%Z.

(** *** [adjoint] *)

Section Adjoint.

Context {K V : Type} `{TensorOps K V}.

(** [np.conj] on scalars; [gram_schmidt] of [tenpy/linalg/lanczos.py]; and
    [adjoint()] of the concrete operator class with the given [matvec]
    ([TenpyLinearOperator.adjoint] raises NotImplementedError("No adjoint
    defined") unless the class defines it). *)
Variable np_conj : K -> K.
Variable gram_schmidt : list V -> list V.
Variable base_adjoint : (V -> V) -> result (Operator K V).

(** [adjoint()]: a wrapper takes the adjoint of the original operator (and,
    for the sum, of the other operators, in order), and then calls the
    constructor of its class, which the source names: the adjoints are the
    arguments of the call, so that their errors come first. *)
Fixpoint adjoint (self : Operator K V) : result (Operator K V) :=
  match self with
  | BaseOperator f => base_adjoint f
  | SumTenpyLinearOperator original_operator more_operators =>
      original ← adjoint original_operator;
      more ← (fix each (ops : list (Operator K V)) : result (list (Operator K V)) :=
                match ops with
                | [] => Ok []
                | op :: ops' => op' ← adjoint op; rest ← each ops'; Ok (op' :: rest)
                end) more_operators;
      SumTenpyLinearOperator_new SumTenpyLinearOperator_class original more
  | ShiftedTenpyLinearOperator original_operator shift =>
      original ← adjoint original_operator;
      ShiftedTenpyLinearOperator_new ShiftedTenpyLinearOperator_class original (np_conj shift)
  | ProjectedTenpyLinearOperator original_operator ortho_vecs penalty =>
      original ← adjoint original_operator;
      ProjectedTenpyLinearOperator_new ProjectedTenpyLinearOperator_class gram_schmidt
        original ortho_vecs (np_conj <$> penalty)
  end.

(** Every operator at the leaves of [op] returns an adjoint. *)
Fixpoint bases_have_adjoint (op : Operator K V) : Prop :=
  match op with
  | BaseOperator f => is_ok (base_adjoint f) = true
  | SumTenpyLinearOperator o more =>
      bases_have_adjoint o /\
      (fix all (l : list (Operator K V)) : Prop :=
         match l with
         | [] => True
         | x :: l' => bases_have_adjoint x /\ all l'
         end) more
  | ShiftedTenpyLinearOperator o _ => bases_have_adjoint o
  | ProjectedTenpyLinearOperator o _ _ => bases_have_adjoint o
  end.

(** [g] is the adjoint of [f] for the inner product. *)
Definition is_adjoint (f g : V -> V) : Prop :=
  forall x y, t_inner x (f y) = t_inner (g x) y.

(** What makes [matvec] its own adjoint: the operators at the leaves are
    their own adjoints, the shifts and penalties are real, and the stored
    vectors of a projection with a penalty are orthonormal. *)
Fixpoint hermitian_parts (op : Operator K V) : Prop :=
  match op with
  | BaseOperator f => is_adjoint f f
  | SumTenpyLinearOperator o more =>
      hermitian_parts o /\
      (fix all (l : list (Operator K V)) : Prop :=
         match l with
         | [] => True
         | x :: l' => hermitian_parts x /\ all l'
         end) more
  | ShiftedTenpyLinearOperator o shift => hermitian_parts o /\ np_conj shift = shift
  | ProjectedTenpyLinearOperator o vecs penalty =>
      hermitian_parts o /\
      match penalty with
      | Some penalty => np_conj penalty = penalty /\ orthonormal vecs
      | None => True
      end
  end.

End Adjoint.

(** The inner product is hermitian, for the conjugation [k_conj]. *)
Class HermitianLaws (K V : Type) `{TensorOps K V} (k_conj : K -> K) : Prop := {
  k_conj_add a b : k_conj (k_add a b) = k_add (k_conj a) (k_conj b);
  k_conj_mul a b : k_conj (a ** b)%T = (k_conj a ** k_conj b)%T;
  k_conj_opp a : k_conj (k_opp a) = k_opp (k_conj a);
  k_conj_one : k_conj k_one = k_one;
  k_conj_conj a : k_conj (k_conj a) = a;
  t_inner_conj x y : t_inner x y = k_conj (t_inner y x)
}.

(** A shift around a projection with a penalty around the swap. *)
Definition shifted_projected_swap : Operator Z (Z * Z) :=
  ShiftedTenpyLinearOperator (ProjectedTenpyLinearOperator swap [e1] (Some 5%Z)) 2%Z.

(** On the tensors with two integer components conjugation does nothing. *)
Definition symmetric_adjoint (f : Z * Z -> Z * Z) : result (Operator Z (Z * Z)) :=
  Ok (BaseOperator f).

Definition no_adjoint (f : Z * Z -> Z * Z) : result (Operator Z (Z * Z)) :=
  Raise (NotImplementedError "No adjoint defined").

(** *** [TensorLinearOperator.__init__] *)

Section TensorLinearOperator.

(** What the constructor uses of [tenpy/linalg/tensors.py] and of the leg
    class (neither is among the sources): the legs with
    [can_contract_with], the labels, the dtype and [get_leg_idx]. *)
Context {Leg Dtype : Type}.
Variable can_contract_with : Leg -> Leg -> bool.

Record Tensor : Type := mk_Tensor {
  legs : list Leg;
  labels : list (option string);
  dtype : Dtype
}.

Definition num_legs (tensor : Tensor) : nat := length (legs tensor).

(** [tensor.get_leg_idx(which_leg)], for a leg given as [int | str]. *)
Variable get_leg_idx : Tensor -> Z + string -> result Z.

Record Shape : Type := mk_Shape {
  Shape_legs : list Leg;
  Shape_labels : option string
}.

Record TensorLinearOperator : Type := mk_TensorLinearOperator {
  which_leg : Z;
  other_leg : Z;
  tensor : Tensor;
  vector_shape : Shape;
  operator_dtype : Dtype
}.

(** The body of [__init__], run on an object once it has been allocated. *)
Definition TensorLinearOperator_init (tensor : Tensor) (which_leg : Z + string)
    : result TensorLinearOperator :=
  if Nat.ltb 2 (num_legs tensor) then Raise (ValueError "Expected a two-leg tensor") else
  leg0 ← getitem (legs tensor) 0;
  leg1 ← getitem (legs tensor) 1;
  if negb (can_contract_with leg0 leg1) then Raise (ValueError "Expected contractible legs") else
  which_leg ← get_leg_idx tensor which_leg;
  let other_leg := (1 - which_leg)%Z in
  leg ← getitem (legs tensor) other_leg;
  label ← getitem (labels tensor) other_leg;
  let vector_shape := mk_Shape [leg] label in
  Ok (mk_TensorLinearOperator which_leg other_leg tensor vector_shape (dtype tensor)).

(** [cls(tensor, which_leg)], for [TensorLinearOperator] as [cls] or a
    subclass that inherits its [__init__]: the class is instantiated, which
    fails for a class with abstract methods, and then [__init__] runs. *)
Definition TensorLinearOperator_new (cls : PyClass) (tensor : Tensor)
    (which_leg : Z + string) : result TensorLinearOperator :=
  instantiate cls (TensorLinearOperator_init tensor which_leg).

End TensorLinearOperator.

(** Legs as a dimension with a duality flag: two legs contract when the
    dimensions agree and the flags differ. *)
Definition flag_contract (l1 l2 : nat * bool) : bool :=
  Nat.eqb l1.1 l2.1 && negb (Bool.eqb l1.2 l2.2).

Definition leg_idx (t : Tensor (Leg := nat * bool) (Dtype := unit)) (which : Z + string)
    : result Z :=
  match which with
  | inl i => if (i <? 0)%Z then Ok (i + Z.of_nat (num_legs t))%Z else Ok i
  | inr _ => Raise (KeyError "label")
  end.

Definition three_legs : Tensor :=
  mk_Tensor [(2, false); (2, true); (3, false)] [None; None; None] tt.

Definition same_legs : Tensor :=
  mk_Tensor [(2, false); (2, false)] [Some "a"; Some "b"] tt.

Definition dual_legs : Tensor :=
  mk_Tensor [(2, false); (2, true)] [Some "a"; Some "b"] tt.

(** A tensor with one leg, and the operator constructed from [dual_legs]. *)
Definition one_leg : Tensor := mk_Tensor [(2, false)] [Some "a"] tt.

Definition dual_legs_operator : TensorLinearOperator :=
  mk_TensorLinearOperator 1%Z 0%Z dual_legs (mk_Shape [(2, false)] (Some "a")) tt.

End Sparse.

(** ** tests/benchmark/misc.py *)

Module BenchmarkMisc.

Definition VALID_SYMMETRY_BACKENDS : list string := ["abelian"; "no_symmetry"; "nonabelian"].
Definition VALID_BLOCK_BACKENDS : list string := ["numpy"; "torch"; "gpu"].

Section ParseBackend.

(** [f'{backend}'], the text of a list of strings. *)
Variable repr : list string -> string.

Definition parse_backend (backend : list string) : result (string * string) :=
  let invalid : result (string * string) :=
    Raise (ValueError ("Invalid backend specification: " ++ repr backend)) in
  match backend with
  | [b0] =>
      if str_in b0 VALID_SYMMETRY_BACKENDS then Ok (b0, hd "" VALID_BLOCK_BACKENDS)
      else if str_in b0 VALID_BLOCK_BACKENDS then Ok (hd "" VALID_SYMMETRY_BACKENDS, b0)
      else invalid
  | [b0; b1] =>
      if str_in b0 VALID_SYMMETRY_BACKENDS && str_in b1 VALID_BLOCK_BACKENDS
      then Ok (b0, b1)
      else if str_in b0 VALID_BLOCK_BACKENDS && str_in b1 VALID_SYMMETRY_BACKENDS
      then Ok (b1, b0)
      else invalid
  | _ => invalid
  end.

End ParseBackend.

End BenchmarkMisc.

(** * Part II: properties *)

(** ** numpy arrays *)

Module NumpyFacts.

Import Numpy.

Local Open Scope nat_scope.

(** *** Flat positions and multi-indices *)

Lemma product_app (l1 l2 : list nat) : product (l1 ++ l2) = product l1 * product l2.
Proof.
  induction l1 as [ | d l1 IH ]; simpl; [ lia | ]. rewrite IH. lia.
Qed.

Lemma product_Permutation (l1 l2 : list nat) : Permutation l1 l2 -> product l1 = product l2.
Proof.
  induction 1 as [ | d l1 l2 _ IH | d e l | l1 l2 l3 _ IH1 _ IH2 ]; simpl; lia.
Qed.

Lemma in_bounds_length shp idx : in_bounds shp idx -> length idx = length shp.
Proof. apply Forall2_length. Qed.

Lemma ravel_bound shp idx : in_bounds shp idx -> ravel shp idx < product shp.
Proof.
  unfold in_bounds. induction 1 as [ | i d idx shp Hi _ IH ]; simpl; [ lia | nia ].
Qed.

Lemma unravel_in_bounds shp : forall k, k < product shp -> in_bounds shp (unravel shp k).
Proof.
  unfold in_bounds.
  induction shp as [ | d shp IH ]; intros k Hk; simpl; [ constructor | ].
  simpl in Hk.
  assert (Hpos : product shp <> 0) by (intros Hz; rewrite Hz in Hk; lia).
  constructor.
  - apply Nat.Div0.div_lt_upper_bound. lia.
  - apply IH. apply Nat.mod_upper_bound. exact Hpos.
Qed.

Lemma ravel_unravel shp : forall k, k < product shp -> ravel shp (unravel shp k) = k.
Proof.
  induction shp as [ | d shp IH ]; intros k Hk; simpl in *; [ lia | ].
  assert (Hpos : product shp <> 0) by (intros Hz; rewrite Hz in Hk; lia).
  rewrite IH by (apply Nat.mod_upper_bound; exact Hpos).
  pose proof (Nat.div_mod_eq k (product shp)). lia.
Qed.

Lemma unravel_ravel shp idx : in_bounds shp idx -> unravel shp (ravel shp idx) = idx.
Proof.
  unfold in_bounds. induction 1 as [ | i d idx shp Hi Hrest IH ]; simpl; [ reflexivity | ].
  pose proof (ravel_bound shp idx Hrest) as Hlt.
  f_equal.
  - rewrite Nat.div_add_l by lia. rewrite Nat.div_small by exact Hlt. lia.
  - rewrite Nat.add_comm, Nat.Div0.mod_add, Nat.mod_small by exact Hlt. exact IH.
Qed.

Lemma in_bounds_nth shp idx :
  in_bounds shp idx <->
  length idx = length shp /\ forall m, m < length shp -> nth m idx 0 < nth m shp 0.
Proof.
  unfold in_bounds. split.
  - induction 1 as [ | i d idx shp Hi _ [IHlen IH] ]; simpl.
    + split; [ reflexivity | intros m Hm; lia ].
    + split; [ lia | ]. intros [ | m ] Hm; [ exact Hi | apply IH; lia ].
  - revert idx. induction shp as [ | d shp IH ]; intros [ | i idx ] [Hlen Hnth];
      simpl in Hlen; try discriminate; constructor.
    + apply (Hnth 0). simpl. lia.
    + apply IH. split; [ lia | ]. intros m Hm. apply (Hnth (S m)). simpl. lia.
Qed.

(** *** Rearrangements of the axes *)

Lemma is_permutation_intro n axes :
  length axes = n -> (forall m, m < n -> In m axes) -> is_permutation n axes = true.
Proof.
  intros Hlen Hall. unfold is_permutation.
  apply andb_true_intro. split; [ apply Nat.eqb_eq; exact Hlen | ].
  apply forallb_forall. intros m Hm%in_seq.
  apply existsb_exists. exists m. split; [ apply Hall; lia | apply Nat.eqb_refl ].
Qed.

Lemma is_permutation_spec n axes :
  is_permutation n axes = true ->
  length axes = n /\ List.NoDup axes /\ forall x, In x axes <-> x < n.
Proof.
  unfold is_permutation. intros [Hlen Hall]%andb_prop.
  apply Nat.eqb_eq in Hlen.
  assert (Hincl : incl (seq 0 n) axes).
  { intros m Hm. rewrite forallb_forall in Hall. specialize (Hall m Hm).
    apply existsb_exists in Hall as [x [Hx Heq]]. apply Nat.eqb_eq in Heq. subst x. exact Hx. }
  assert (Hperm : Permutation (seq 0 n) axes).
  { apply NoDup_Permutation_bis; [ apply seq_NoDup | rewrite length_seq; lia | exact Hincl ]. }
  split; [ exact Hlen | ]. split.
  - eapply Permutation_NoDup; [ exact Hperm | apply seq_NoDup ].
  - intros x. split.
    + intros Hx. apply (Permutation_in _ (Permutation_sym Hperm)) in Hx.
      apply in_seq in Hx. lia.
    + intros Hx. apply Hincl. apply in_seq. lia.
Qed.

Lemma index_of_lt x l : In x l -> index_of x l < length l.
Proof.
  induction l as [ | y l IH ]; simpl; [ tauto | ].
  intros Hin. destruct (Nat.eqb_spec x y) as [ | Hne ]; [ lia | ].
  destruct Hin as [ -> | Hin ]; [ congruence | ]. specialize (IH Hin). lia.
Qed.

Lemma nth_index_of x l : In x l -> nth (index_of x l) l 0 = x.
Proof.
  induction l as [ | y l IH ]; simpl; [ tauto | ].
  intros Hin. destruct (Nat.eqb_spec x y) as [ -> | Hne ]; [ reflexivity | ].
  destruct Hin as [ -> | Hin ]; [ congruence | ]. apply IH. exact Hin.
Qed.

Lemma index_of_nth l : List.NoDup l -> forall k, k < length l -> index_of (nth k l 0) l = k.
Proof.
  induction 1 as [ | y l Hnotin _ IH ]; intros k Hk; simpl in *; [ lia | ].
  destruct k as [ | k ]; [ rewrite Nat.eqb_refl; reflexivity | ].
  destruct (Nat.eqb_spec (nth k l 0) y) as [ Heq | Hne ].
  - exfalso. apply Hnotin. rewrite <- Heq. apply nth_In. lia.
  - rewrite IH by lia. reflexivity.
Qed.

Lemma take_axes_length axes l : length (take_axes axes l) = length axes.
Proof. apply length_map. Qed.

Lemma take_axes_nth axes l k :
  k < length axes -> nth k (take_axes axes l) 0 = nth (nth k axes 0) l 0.
Proof.
  intros Hk. unfold take_axes.
  rewrite (nth_indep _ 0 (nth 0 l 0)) by (rewrite length_map; exact Hk).
  rewrite (map_nth (fun ax => nth ax l 0)). reflexivity.
Qed.

Lemma take_axes_seq l : take_axes (seq 0 (length l)) l = l.
Proof.
  apply (nth_ext _ _ 0 0).
  - rewrite take_axes_length, length_seq. reflexivity.
  - intros k Hk. rewrite take_axes_length, length_seq in Hk.
    rewrite take_axes_nth by (rewrite length_seq; exact Hk).
    rewrite seq_nth by exact Hk. reflexivity.
Qed.

Lemma take_axes_Permutation axes l :
  is_permutation (length l) axes = true -> Permutation (take_axes axes l) l.
Proof.
  intros Hperm. apply is_permutation_spec in Hperm as [Hlen [Hnodup Hin]].
  rewrite <- (take_axes_seq l) at 2. unfold take_axes. apply Permutation_map.
  apply Permutation_sym, NoDup_Permutation_bis; [ apply seq_NoDup | rewrite length_seq; lia | ].
  intros m Hm%in_seq. apply Hin. lia.
Qed.

Lemma nth_map_seq (f : nat -> nat) n m : m < n -> nth m (map f (seq 0 n)) 0 = f m.
Proof.
  intros Hm. rewrite (nth_indep _ 0 (f 0)) by (rewrite length_map, length_seq; exact Hm).
  rewrite map_nth, seq_nth by exact Hm. reflexivity.
Qed.

Lemma source_index_length axes i : length (source_index axes i) = length axes.
Proof. unfold source_index. rewrite length_map, length_seq. reflexivity. Qed.

Lemma source_index_nth axes i m :
  m < length axes -> nth m (source_index axes i) 0 = nth (index_of m axes) i 0.
Proof. intros Hm. unfold source_index. rewrite nth_map_seq by exact Hm. reflexivity. Qed.

Lemma source_index_in_bounds axes shp i :
  is_permutation (length shp) axes = true ->
  in_bounds (take_axes axes shp) i -> in_bounds shp (source_index axes i).
Proof.
  intros Hperm Hi. pose proof (is_permutation_spec _ _ Hperm) as [Hlen [Hnodup Hin]].
  apply in_bounds_nth in Hi as [_ Hi]. rewrite take_axes_length in Hi.
  apply in_bounds_nth. split; [ rewrite source_index_length; exact Hlen | ].
  intros m Hm.
  assert (Hp : index_of m axes < length axes) by (apply index_of_lt, Hin; exact Hm).
  rewrite source_index_nth by lia.
  specialize (Hi _ Hp). rewrite take_axes_nth in Hi by exact Hp.
  rewrite nth_index_of in Hi by (apply Hin; exact Hm). exact Hi.
Qed.

(** *** [np.transpose] *)

Lemma omap_total {A B : Type} (f : A -> option B) (l : list A) :
  (forall x, In x l -> is_Some (f x)) ->
  length (omap f l) = length l /\ forall k, omap f l !! k = l !! k ≫= f.
Proof.
  induction l as [ | x l IH ]; intros Hsome; simpl.
  - split; [ reflexivity | intros k; reflexivity ].
  - destruct (Hsome x (or_introl eq_refl)) as [y Hy]. rewrite Hy.
    destruct IH as [IHlen IH]; [ intros z Hz; apply Hsome; right; exact Hz | ].
    split; [ simpl; f_equal; exact IHlen | ].
    intros [ | k ]; simpl; [ symmetry; exact Hy | apply IH ].
Qed.

Section Transpose.

Context {A : Type}.

(** On a rearrangement of its axes an array is transposed: the elements of
    the result are those of [a], read at the source multi-index. *)
Lemma transpose_spec (a : ndarray A) (axes : list nat) :
  wf a -> is_permutation (ndim a) axes = true ->
  exists a', transpose a axes = Ok a' /\
    shape a' = take_axes axes (shape a) /\
    wf a' /\
    forall k, k < size a' ->
      data a' !! k = item a (source_index axes (unravel (shape a') k)).
Proof.
  intros Hwf Hperm. unfold transpose. rewrite Hperm.
  eexists. split; [ reflexivity | ]. simpl.
  set (shp := take_axes axes (shape a)).
  set (source := fun k => item a (source_index axes (unravel shp k))).
  destruct (omap_total source (seq 0 (product shp))) as [Hlen Hlookup].
  { intros k Hk%in_seq. unfold source, item. apply lookup_lt_is_Some.
    rewrite Hwf. apply ravel_bound, source_index_in_bounds; [ exact Hperm | ].
    apply unravel_in_bounds. lia. }
  split; [ reflexivity | ]. split.
  - unfold wf, size. simpl. rewrite Hlen, length_seq. reflexivity.
  - unfold size. simpl. intros k Hk. rewrite Hlookup, lookup_seq_lt by exact Hk.
    reflexivity.
Qed.

End Transpose.

(** *** Multi-indices of two groups of axes *)

Lemma in_bounds_app s1 s2 i j :
  in_bounds s1 i -> in_bounds s2 j -> in_bounds (s1 ++ s2) (i ++ j).
Proof. unfold in_bounds. apply Forall2_app. Qed.

Lemma ravel_app s1 s2 i j :
  in_bounds s1 i -> ravel (s1 ++ s2) (i ++ j) = ravel s1 i * product s2 + ravel s2 j.
Proof.
  unfold in_bounds. induction 1 as [ | x d i s1 _ _ IH ]; simpl; [ reflexivity | ].
  rewrite IH, product_app. lia.
Qed.

Lemma ravel_inj s i j : in_bounds s i -> in_bounds s j -> ravel s i = ravel s j -> i = j.
Proof.
  intros Hi Hj Heq. rewrite <- (unravel_ravel s i Hi), <- (unravel_ravel s j Hj), Heq.
  reflexivity.
Qed.

Lemma unravel_length shp k : length (unravel shp k) = length shp.
Proof. revert k. induction shp as [ | d shp IH ]; intros k; simpl; [ | rewrite IH ]; reflexivity. Qed.

Lemma unravel_app s1 s2 k1 k2 :
  k1 < product s1 -> k2 < product s2 ->
  unravel (s1 ++ s2) (k1 * product s2 + k2) = unravel s1 k1 ++ unravel s2 k2.
Proof.
  intros Hk1 Hk2.
  pose proof (unravel_in_bounds s1 k1 Hk1) as H1.
  pose proof (unravel_in_bounds s2 k2 Hk2) as H2.
  rewrite <- (unravel_ravel (s1 ++ s2) (unravel s1 k1 ++ unravel s2 k2))
    by (apply in_bounds_app; assumption).
  rewrite (ravel_app _ _ _ _ H1), !ravel_unravel by assumption. reflexivity.
Qed.

Lemma index_of_app_l m p1 p2 : In m p1 -> index_of m (p1 ++ p2) = index_of m p1.
Proof.
  induction p1 as [ | x p1 IH ]; simpl; [ tauto | ].
  intros Hin. destruct (Nat.eqb_spec m x) as [ | Hne ]; [ reflexivity | ].
  destruct Hin as [ -> | Hin ]; [ congruence | ]. rewrite (IH Hin). reflexivity.
Qed.

Lemma index_of_app_r m p1 p2 :
  ~ In m p1 -> index_of m (p1 ++ p2) = length p1 + index_of m p2.
Proof.
  induction p1 as [ | x p1 IH ]; simpl; [ reflexivity | ].
  intros Hnotin. destruct (Nat.eqb_spec m x) as [ -> | Hne ]; [ tauto | ].
  rewrite IH by tauto. reflexivity.
Qed.

Lemma is_permutation_app_comm n p1 p2 :
  is_permutation n (p1 ++ p2) = true -> is_permutation n (p2 ++ p1) = true.
Proof.
  intros Hperm. apply is_permutation_spec in Hperm as [Hlen [_ Hin]].
  apply is_permutation_intro; [ rewrite length_app in *; lia | ].
  intros m Hm. apply Hin in Hm. apply in_app_iff in Hm. apply in_app_iff. tauto.
Qed.

Lemma NoDup_app_disjoint (p1 p2 : list nat) m :
  List.NoDup (p1 ++ p2) -> In m p1 -> ~ In m p2.
Proof.
  induction p1 as [ | x p1 IH ]; simpl; [ tauto | ].
  intros Hnodup Hin Hin2. inversion Hnodup as [ | ? ? Hnotin Hrest ]; subst.
  destruct Hin as [ -> | Hin ]; [ | exact (IH Hrest Hin Hin2) ].
  apply Hnotin, in_app_iff. right. exact Hin2.
Qed.

Lemma source_index_app_comm n p1 p2 i j :
  is_permutation n (p1 ++ p2) = true -> length i = length p1 -> length j = length p2 ->
  source_index (p1 ++ p2) (i ++ j) = source_index (p2 ++ p1) (j ++ i).
Proof.
  intros Hperm Hi Hj. pose proof (is_permutation_spec _ _ Hperm) as [Hlen [Hnodup Hin]].
  apply (nth_ext _ _ 0 0); [ rewrite !source_index_length, !length_app; lia | ].
  intros m Hm. rewrite source_index_length in Hm.
  rewrite !source_index_nth by (rewrite length_app in *; lia).
  assert (Hmem : In m (p1 ++ p2)) by (apply Hin; lia).
  apply in_app_iff in Hmem as [Hm1 | Hm2].
  - pose proof (NoDup_app_disjoint _ _ _ Hnodup Hm1) as Hnot2.
    pose proof (index_of_lt _ _ Hm1) as Hlt.
    rewrite (index_of_app_l _ _ _ Hm1), (index_of_app_r _ _ _ Hnot2).
    rewrite app_nth1 by lia. rewrite app_nth2 by lia.
    f_equal. lia.
  - assert (Hnot1 : ~ In m p1).
    { intros Hm1. exact (NoDup_app_disjoint _ _ _ Hnodup Hm1 Hm2). }
    pose proof (index_of_lt _ _ Hm2) as Hlt.
    rewrite (index_of_app_r _ _ _ Hnot1), (index_of_app_l _ _ _ Hm2).
    rewrite app_nth2 by lia. rewrite app_nth1 by lia.
    f_equal. lia.
Qed.

Lemma omap_ext_in {B C : Type} (f g : B -> option C) (l : list B) :
  (forall x, In x l -> f x = g x) -> omap f l = omap g l.
Proof.
  induction l as [ | x l IH ]; intros Hext; [ reflexivity | ].
  assert (Htail : omap f l = omap g l) by (apply IH; intros y Hy; apply Hext; right; exact Hy).
  simpl. rewrite (Hext x (or_introl eq_refl)).
  destruct (g x); [ f_equal | ]; exact Htail.
Qed.

Lemma flat_map_lookup {B C : Type} (f : B -> list C) (n : nat) (l : list B) :
  (forall x, length (f x) = n) ->
  forall r c, c < n -> flat_map f l !! (r * n + c) = l !! r ≫= fun x => f x !! c.
Proof.
  intros Hlen. induction l as [ | x l IH ]; intros r c Hc; simpl.
  - rewrite !lookup_nil. reflexivity.
  - destruct r as [ | r ]; simpl.
    + rewrite lookup_app_l by (rewrite Hlen; exact Hc). reflexivity.
    + rewrite lookup_app_r by (rewrite Hlen; lia).
      replace (n + r * n + c - length (f x)) with (r * n + c) by (rewrite Hlen; lia).
      apply IH. exact Hc.
Qed.

Lemma flat_map_length_uniform {B C : Type} (f : B -> list C) (n : nat) (l : list B) :
  (forall x, length (f x) = n) -> length (flat_map f l) = length l * n.
Proof.
  intros Hlen. induction l as [ | x l IH ]; simpl; [ reflexivity | ].
  rewrite length_app, Hlen, IH. reflexivity.
Qed.

End NumpyFacts.

(** ** The numpy block backend *)

Module NumpyBackendFacts.

Import Numpy NumpyBackend NumpyFacts.

Local Open Scope nat_scope.

(** *** [inverse_permutation] *)

Lemma inverse_permutation_length perm : length (inverse_permutation perm) = length perm.
Proof. unfold inverse_permutation. rewrite length_map, length_seq. reflexivity. Qed.

Lemma inverse_permutation_nth perm m :
  m < length perm -> nth m (inverse_permutation perm) 0 = index_of m perm.
Proof. intros Hm. unfold inverse_permutation. rewrite nth_map_seq by exact Hm. reflexivity. Qed.

Lemma inverse_permutation_is_permutation n perm :
  is_permutation n perm = true -> is_permutation n (inverse_permutation perm) = true.
Proof.
  intros Hperm. pose proof (is_permutation_spec _ _ Hperm) as [Hlen [Hnodup Hin]].
  apply is_permutation_intro; [ rewrite inverse_permutation_length; exact Hlen | ].
  intros m Hm.
  assert (Hp : nth m perm 0 < length perm).
  { rewrite Hlen. apply Hin. apply nth_In. lia. }
  rewrite <- (index_of_nth perm Hnodup m) by lia.
  rewrite <- inverse_permutation_nth by exact Hp.
  apply nth_In. rewrite inverse_permutation_length. exact Hp.
Qed.

Lemma index_of_inverse_permutation n perm m :
  is_permutation n perm = true -> m < n ->
  index_of m (inverse_permutation perm) = nth m perm 0.
Proof.
  intros Hperm Hm. pose proof (is_permutation_spec _ _ Hperm) as [Hlen [Hnodup Hin]].
  pose proof (inverse_permutation_is_permutation _ _ Hperm) as Hinv.
  apply is_permutation_spec in Hinv as [Hlen' [Hnodup' _]].
  assert (Hp : nth m perm 0 < length perm).
  { rewrite Hlen. apply Hin. apply nth_In. lia. }
  rewrite <- (index_of_nth _ Hnodup' (nth m perm 0)) by lia.
  rewrite inverse_permutation_nth by exact Hp.
  rewrite index_of_nth by (assumption || lia). reflexivity.
Qed.

Lemma source_index_inverse n axes i :
  is_permutation n axes = true -> length i = n ->
  source_index axes (source_index (inverse_permutation axes) i) = i.
Proof.
  intros Hperm Hi. pose proof (is_permutation_spec _ _ Hperm) as [Hlen [Hnodup Hin]].
  apply (nth_ext _ _ 0 0); [ rewrite source_index_length; lia | ].
  intros m Hm. rewrite source_index_length in Hm.
  assert (Hp : index_of m axes < length axes) by (apply index_of_lt, Hin; lia).
  rewrite source_index_nth by exact Hm.
  rewrite source_index_nth by (rewrite inverse_permutation_length; exact Hp).
  rewrite (index_of_inverse_permutation n) by (assumption || lia).
  rewrite nth_index_of by (apply Hin; lia). reflexivity.
Qed.

Lemma take_axes_inverse n axes l :
  is_permutation n axes = true -> length l = n ->
  take_axes (inverse_permutation axes) (take_axes axes l) = l.
Proof.
  intros Hperm Hl. pose proof (is_permutation_spec _ _ Hperm) as [Hlen [Hnodup Hin]].
  apply (nth_ext _ _ 0 0);
    [ rewrite take_axes_length, inverse_permutation_length; lia | ].
  intros m Hm. rewrite take_axes_length, inverse_permutation_length in Hm.
  assert (Hp : index_of m axes < length axes) by (apply index_of_lt, Hin; lia).
  rewrite take_axes_nth by (rewrite inverse_permutation_length; exact Hm).
  rewrite inverse_permutation_nth by exact Hm.
  rewrite take_axes_nth by exact Hp.
  rewrite nth_index_of by (apply Hin; lia). reflexivity.
Qed.

(** *** [block_matrixify] and [block_dematrixify] *)

Section Matrixify.

Context {A : Type}.

(** Transposing back with the inverse permutation restores the array. *)
Lemma transpose_inverse_permutation (a a' : ndarray A) (axes : list nat) :
  wf a -> transpose a axes = Ok a' ->
  transpose a' (inverse_permutation axes) = Ok a.
Proof.
  intros Hwf Htr.
  assert (Hperm : is_permutation (ndim a) axes = true).
  { unfold transpose in Htr. destruct (is_permutation (ndim a) axes); [ reflexivity | discriminate ]. }
  destruct (transpose_spec a axes Hwf Hperm) as [b [Hb [Hshape [Hwf' Hdata]]]].
  rewrite Htr in Hb. injection Hb as <-.
  pose proof (is_permutation_spec _ _ Hperm) as [Hlen _].
  assert (Hperm' : is_permutation (ndim a') (inverse_permutation axes) = true).
  { unfold ndim. rewrite Hshape, take_axes_length, Hlen.
    apply inverse_permutation_is_permutation. exact Hperm. }
  destruct (transpose_spec a' _ Hwf' Hperm') as [a'' [Ha'' [Hshape'' [Hwf'' Hdata'']]]].
  rewrite Ha''. f_equal.
  assert (Hsame : shape a'' = shape a).
  { rewrite Hshape'', Hshape. apply (take_axes_inverse (ndim a)); [ exact Hperm | reflexivity ]. }
  clear Hshape'' Ha''.
  destruct a as [shp dat], a'' as [shp'' dat'']. unfold wf, size, ndim in *.
  simpl in *. subst shp''. f_equal.
  apply list_eq. intros k.
  destruct (decide (k < product shp)) as [Hk | Hk].
  - rewrite (Hdata'' k Hk). unfold item at 1.
    assert (Hi : in_bounds shp (unravel shp k)) by (apply unravel_in_bounds; exact Hk).
    assert (Hj : in_bounds (shape a')
                   (source_index (inverse_permutation axes) (unravel shp k))).
    { apply source_index_in_bounds.
      - rewrite Hshape, take_axes_length, Hlen.
        apply inverse_permutation_is_permutation. exact Hperm.
      - rewrite Hshape, (take_axes_inverse (length shp)) by (exact Hperm || reflexivity).
        exact Hi. }
    rewrite Hdata by (apply ravel_bound; exact Hj).
    rewrite unravel_ravel by exact Hj.
    rewrite (source_index_inverse (length shp))
      by (exact Hperm || (apply in_bounds_length; exact Hi)).
    unfold item. simpl. rewrite ravel_unravel by exact Hk. reflexivity.
  - rewrite !lookup_ge_None_2 by lia. reflexivity.
Qed.

Lemma prod_nonempty (t : list nat) : t <> [] -> prod t = Int (product t).
Proof. destruct t; [ congruence | reflexivity ]. Qed.

Lemma as_ints_Int (l : list nat) : as_ints (map Int l) = Some l.
Proof. induction l as [ | n l IH ]; simpl; [ reflexivity | rewrite IH; reflexivity ]. Qed.

Lemma bind_Ok {B C : Type} (x : B) (k : B -> result C) : (Ok x ≫= k) = k x.
Proof. reflexivity. Qed.

(** With two non-empty groups of axes, [block_matrixify] returns the
    transposed array as a matrix, with the permutation and the transposed
    shape as auxiliary data. *)
Lemma block_matrixify_spec (a : Block A) (idcs1 idcs2 : list nat) :
  wf a -> is_permutation (ndim a) (idcs1 ++ idcs2) = true ->
  idcs1 <> [] -> idcs2 <> [] ->
  exists a' rows cols,
    transpose a (idcs1 ++ idcs2) = Ok a' /\ wf a' /\
    rows * cols = size a' /\
    block_matrixify a idcs1 idcs2
      = Ok (mk_ndarray [rows; cols] (data a'), (idcs1 ++ idcs2, shape a')).
Proof.
  intros Hwf Hperm Hne1 Hne2.
  destruct (transpose_spec a _ Hwf Hperm) as [a' [Ha' [Hshape [Hwf' _]]]].
  pose proof (is_permutation_spec _ _ Hperm) as [Hlen _].
  assert (Hlen' : length (shape a') = length idcs1 + length idcs2).
  { rewrite Hshape, take_axes_length, length_app. reflexivity. }
  assert (Hpos1 : 0 < length idcs1) by (destruct idcs1; [ congruence | simpl; lia ]).
  assert (Hpos2 : 0 < length idcs2) by (destruct idcs2; [ congruence | simpl; lia ]).
  exists a', (product (firstn (length idcs1) (shape a'))),
    (product (skipn (length idcs1) (shape a'))).
  split; [ exact Ha' | ]. split; [ exact Hwf' | ].
  assert (Hsize : product (firstn (length idcs1) (shape a'))
                  * product (skipn (length idcs1) (shape a')) = size a').
  { unfold size. rewrite <- product_app, firstn_skipn. reflexivity. }
  split; [ exact Hsize | ].
  unfold block_matrixify. rewrite Ha', bind_Ok.
  rewrite !prod_nonempty.
  - unfold reshape. cbn [as_ints fmap option_fmap option_map].
    replace (product [_; _]) with (size a') by (simpl; lia).
    rewrite Nat.eqb_refl, bind_Ok. reflexivity.
  - intros Hnil. apply (f_equal (@length nat)) in Hnil.
    rewrite ?length_skipn, ?length_firstn in Hnil. change (length (@nil nat)) with 0 in Hnil.
    clear -Hlen' Hnil Hpos1 Hpos2. lia.
  - intros Hnil. apply (f_equal (@length nat)) in Hnil.
    rewrite ?length_skipn, ?length_firstn in Hnil. change (length (@nil nat)) with 0 in Hnil.
    clear -Hlen' Hnil Hpos1 Hpos2. lia.
Qed.

(** X25.  The roundtrip, for two non-empty groups of axes: the matrix has
    two axes, and [block_dematrixify] gives back the block. *)
Lemma block_dematrixify_block_matrixify (a : Block A) (idcs1 idcs2 : list nat) :
  wf a -> is_permutation (ndim a) (idcs1 ++ idcs2) = true ->
  idcs1 <> [] -> idcs2 <> [] ->
  exists matrix aux,
    block_matrixify a idcs1 idcs2 = Ok (matrix, aux) /\
    ndim matrix = 2 /\
    block_dematrixify matrix aux = Ok a.
Proof.
  intros Hwf Hperm Hne1 Hne2.
  destruct (block_matrixify_spec a idcs1 idcs2 Hwf Hperm Hne1 Hne2)
    as [a' [rows [cols [Ha' [Hwf' [Hsize Hmat]]]]]].
  eexists _, _. split; [ exact Hmat | ]. split; [ reflexivity | ].
  unfold block_dematrixify, reshape. rewrite as_ints_Int.
  replace (size (mk_ndarray [rows; cols] (data a'))) with (product (shape a'))
    by (unfold size in *; simpl; lia).
  rewrite Nat.eqb_refl, bind_Ok. simpl data.
  replace (mk_ndarray (shape a') (data a')) with a' by (destruct a'; reflexivity).
  apply (transpose_inverse_permutation a a'); assumption.
Qed.

(** C6 (where the code departs).  With an empty group of axes the roundtrip
    does not start: [np.prod] of the empty tuple is the float [1.0], which
    [np.reshape] refuses as a dimension, so [block_matrixify] raises TypeError. *)
Theorem block_matrixify_empty_group (a : Block A) (idcs : list nat) :
  wf a -> is_permutation (ndim a) idcs = true ->
  block_matrixify a [] idcs = Raise TypeError /\
  block_matrixify a idcs [] = Raise TypeError.
Proof.
  intros Hwf Hperm.
  destruct (transpose_spec a _ Hwf Hperm) as [a' [Ha' [Hshape _]]].
  pose proof (is_permutation_spec _ _ Hperm) as [Hlen _].
  split; unfold block_matrixify.
  - simpl app. rewrite Ha', bind_Ok. reflexivity.
  - rewrite app_nil_r, Ha', bind_Ok.
    rewrite skipn_all2 by (rewrite Hshape, take_axes_length; lia).
    unfold reshape. simpl. destruct (prod _); reflexivity.
Qed.

End Matrixify.

Example block_matrixify_2x3x2 :
  block_matrixify block_2x3x2 [2; 0] [1]
    = Ok (mk_ndarray [4; 3] [0; 2; 4; 6; 8; 10; 1; 3; 5; 7; 9; 11], ([2; 0; 1], [2; 2; 3])).
Proof. reflexivity. Qed.

Example block_dematrixify_2x3x2 :
  block_dematrixify (mk_ndarray [4; 3] [0; 2; 4; 6; 8; 10; 1; 3; 5; 7; 9; 11])
    ([2; 0; 1], [2; 2; 3]) = Ok block_2x3x2.
Proof. reflexivity. Qed.

Lemma block_matrixify_empty_group_witness :
  block_matrixify block_2x3 [] [1; 0] = Raise TypeError /\
  block_matrixify block_2x3 [1; 0] [] = Raise TypeError.
Proof.
  apply (block_matrixify_empty_group block_2x3 [1; 0]); reflexivity.
Defined.

(** *** [matrix_svd] *)

Section MatrixSvd.

Context {A : Type}.
Variable scipy_linalg_svd : Block A -> result (USV A).

Lemma str_in_false_cons (x y : string) (l : list string) :
  str_in x (y :: l) = false -> x <> y /\ str_in x l = false.
Proof.
  unfold str_in; simpl. intros Hor.
  apply orb_false_elim in Hor as [Hxy Hl].
  split; [ now apply String.eqb_neq | exact Hl ].
Qed.

(** When the default driver succeeds, every mode that uses it returns its
    factors and nothing else is attempted. *)
Lemma matrix_svd_default_driver_ok (a : Block A) (usv : USV A) (algorithm : option string) :
  scipy_linalg_svd a = Ok usv ->
  algorithm = None \/ algorithm = Some "gesdd" \/
    algorithm = Some "robust" \/ algorithm = Some "robust_silent" ->
  matrix_svd scipy_linalg_svd a algorithm = ([call_scipy_svd a], Ok usv).
Proof.
  intros Hsvd [-> | [-> | [-> | ->]]]; unfold matrix_svd, scipy_svd; simpl;
    rewrite Hsvd; reflexivity.
Qed.

(** A failure of the default driver other than non-convergence is not caught
    by the robust modes. *)
Lemma matrix_svd_robust_other_failure (a : Block A) (e : exn) (algorithm : string) :
  scipy_linalg_svd a = Raise e -> e <> LinAlgError ->
  algorithm = "robust" \/ algorithm = "robust_silent" ->
  matrix_svd scipy_linalg_svd a (Some algorithm) = ([call_scipy_svd a], Raise e).
Proof.
  intros Hsvd Hne [-> | ->]; unfold matrix_svd, scipy_svd; simpl;
    rewrite Hsvd; destruct e; try reflexivity; congruence.
Qed.

(** C1 (what the code does).  When the default driver raises LinAlgError:
    'robust' catches it and signals NotImplementedError in place of the
    warning, before the fallback is tried; 'robust_silent' catches it and
    calls the fallback [_svd_gesvd], which has no body and signals
    NotImplementedError; no SVD is returned in either mode.  With None or
    'gesdd' the LinAlgError reaches the caller unmodified; 'gesvd' never
    calls the default driver and signals NotImplementedError. *)
Theorem matrix_svd_non_convergence (a : Block A) :
  scipy_linalg_svd a = Raise LinAlgError ->
  matrix_svd scipy_linalg_svd a (Some "robust")
    = ([call_scipy_svd a], Raise (NotImplementedError "")) /\
  matrix_svd scipy_linalg_svd a (Some "robust_silent")
    = ([call_scipy_svd a; call_svd_gesvd a], Raise (NotImplementedError "")) /\
  matrix_svd scipy_linalg_svd a None = ([call_scipy_svd a], Raise LinAlgError) /\
  matrix_svd scipy_linalg_svd a (Some "gesdd") = ([call_scipy_svd a], Raise LinAlgError) /\
  matrix_svd scipy_linalg_svd a (Some "gesvd")
    = ([call_svd_gesvd a], Raise (NotImplementedError "")).
Proof.
  intros Hsvd. unfold matrix_svd, scipy_svd, _svd_gesvd; simpl.
  rewrite Hsvd. repeat split.
Qed.

(** C8.  An algorithm name outside [svd_algorithms] signals ValueError and
    no decomposition is attempted; None runs the default driver, as 'gesdd'
    does. *)
Theorem matrix_svd_unsupported (a : Block A) (algorithm : string) :
  str_in algorithm svd_algorithms = false ->
  matrix_svd scipy_linalg_svd a (Some algorithm)
    = ([], Raise (ValueError ("SVD algorithm not supported: " ++ algorithm))) /\
  matrix_svd scipy_linalg_svd a None = matrix_svd scipy_linalg_svd a (Some "gesdd") /\
  matrix_svd scipy_linalg_svd a None = ([call_scipy_svd a], scipy_linalg_svd a).
Proof.
  intros Hin. unfold svd_algorithms in Hin.
  apply str_in_false_cons in Hin as [Hgesdd Hin].
  apply str_in_false_cons in Hin as [Hgesvd Hin].
  split; [ | split; reflexivity ].
  unfold matrix_svd.
  apply String.eqb_neq in Hgesdd, Hgesvd.
  rewrite Hgesdd, Hin, Hgesvd. reflexivity.
Qed.

End MatrixSvd.

(** With a default driver that does not converge, neither robust mode
    returns an SVD. *)
Lemma matrix_svd_robust_returns_no_svd :
  diverging_svd block_1x1 = Raise LinAlgError /\
  ~ (exists usv, (matrix_svd diverging_svd block_1x1 (Some "robust")).2 = Ok usv) /\
  ~ (exists usv, (matrix_svd diverging_svd block_1x1 (Some "robust_silent")).2 = Ok usv).
Proof.
  split; [ reflexivity | ].
  split; intros [usv Husv]; vm_compute in Husv; discriminate.
Qed.

Lemma matrix_svd_non_convergence_witness :
  diverging_svd block_1x1 = Raise LinAlgError /\
  matrix_svd diverging_svd block_1x1 (Some "robust_silent")
    = ([call_scipy_svd block_1x1; call_svd_gesvd block_1x1], Raise (NotImplementedError "")).
Proof.
  split; [ reflexivity | ].
  apply (matrix_svd_non_convergence diverging_svd block_1x1). reflexivity.
Defined.

Lemma matrix_svd_unsupported_witness :
  str_in "jacobi" svd_algorithms = false /\
  matrix_svd diverging_svd block_1x1 (Some "jacobi")
    = ([], Raise (ValueError "SVD algorithm not supported: jacobi")).
Proof.
  split; [ reflexivity | ].
  apply (matrix_svd_unsupported diverging_svd block_1x1 "jacobi"). reflexivity.
Defined.

(** *** More on [block_matrixify], and [eye_block] *)

Section MatrixifyShape.

Context {A : Type}.

Lemma take_axes_app (axes1 axes2 l : list nat) :
  take_axes (axes1 ++ axes2) l = take_axes axes1 l ++ take_axes axes2 l.
Proof. apply map_app. Qed.

Lemma transpose_Ok (a a' : ndarray A) (axes : list nat) :
  transpose a axes = Ok a' -> is_permutation (ndim a) axes = true.
Proof.
  unfold transpose. destruct (is_permutation (ndim a) axes); [ reflexivity | discriminate ].
Qed.

Lemma reshape_Int (a : ndarray A) (shp : list nat) :
  product shp = size a -> reshape a (map Int shp) = Ok (mk_ndarray shp (data a)).
Proof.
  intros Hsize. unfold reshape. rewrite as_ints_Int, Hsize, Nat.eqb_refl. reflexivity.
Qed.

(** X24.  For two non-empty groups of axes, the matrix of [block_matrixify]
    has the product of the dimensions of the first group as rows and that of
    the second group as columns, holds the elements of the block, and comes
    with the permutation and the transposed shape as auxiliary data. *)
Theorem block_matrixify_shape (a : Block A) (idcs1 idcs2 : list nat) :
  wf a -> is_permutation (ndim a) (idcs1 ++ idcs2) = true ->
  idcs1 <> [] -> idcs2 <> [] ->
  exists matrix,
    block_matrixify a idcs1 idcs2
      = Ok (matrix, (idcs1 ++ idcs2, take_axes (idcs1 ++ idcs2) (shape a))) /\
    shape matrix = [product (take_axes idcs1 (shape a)); product (take_axes idcs2 (shape a))] /\
    wf matrix /\ size matrix = size a.
Proof.
  intros Hwf Hperm Hne1 Hne2.
  destruct (transpose_spec a _ Hwf Hperm) as [a' [Ha' [Hshape [Hwf' _]]]].
  assert (Hfirst : firstn (length idcs1) (shape a') = take_axes idcs1 (shape a)).
  { rewrite Hshape, take_axes_app, <- (take_axes_length idcs1 (shape a)).
    apply take_app_length. }
  assert (Hskip : skipn (length idcs1) (shape a') = take_axes idcs2 (shape a)).
  { rewrite Hshape, take_axes_app, <- (take_axes_length idcs1 (shape a)).
    apply drop_app_length. }
  assert (Hsize : size a' = size a).
  { unfold size. rewrite Hshape. apply product_Permutation, take_axes_Permutation. exact Hperm. }
  assert (Hprod : product (take_axes idcs1 (shape a)) * product (take_axes idcs2 (shape a))
                  = size a').
  { unfold size. rewrite Hshape, take_axes_app, product_app. reflexivity. }
  exists (mk_ndarray [product (take_axes idcs1 (shape a)); product (take_axes idcs2 (shape a))]
            (data a')).
  split; [ | split; [ reflexivity | split ] ].
  - unfold block_matrixify. rewrite Ha', bind_Ok, Hfirst, Hskip.
    rewrite !prod_nonempty by (destruct idcs1, idcs2; simpl; congruence).
    change [Int ?x; Int ?y] with (map Int [x; y]).
    rewrite reshape_Int by (simpl; lia). rewrite bind_Ok, Hshape. reflexivity.
  - unfold wf, size in *. simpl. lia.
  - unfold size in *. simpl. lia.
Qed.

(** X26.  Any matrix of the size of the matrix that [block_matrixify]
    returned (such as the result of a matrix function) is turned by
    [block_dematrixify], with the auxiliary data, into a block of the shape
    of the original block. *)
Theorem block_dematrixify_same_size (a matrix matrix' : Block A) (idcs1 idcs2 : list nat)
    (aux : Aux) :
  wf a -> block_matrixify a idcs1 idcs2 = Ok (matrix, aux) ->
  wf matrix' -> size matrix' = size matrix ->
  exists res, block_dematrixify matrix' aux = Ok res /\ shape res = shape a /\ wf res.
Proof.
  intros Hwf Hmat Hwf' Hsize. unfold block_matrixify in Hmat.
  destruct (transpose a (idcs1 ++ idcs2)) as [a' | e] eqn:Ha'; [ | discriminate ].
  rewrite bind_Ok in Hmat.
  destruct (reshape a' _) as [m | e] eqn:Hm; [ | discriminate ].
  rewrite bind_Ok in Hmat. injection Hmat as <- <-.
  pose proof (transpose_Ok _ _ _ Ha') as Hperm.
  destruct (transpose_spec a _ Hwf Hperm) as [b [Hb [Hshape [Hwfa' _]]]].
  rewrite Ha' in Hb. injection Hb as <-.
  assert (Hm_size : size m = size a').
  { unfold reshape in Hm. destruct (as_ints _) as [shp | ]; [ | discriminate ].
    destruct (Nat.eqb_spec (product shp) (size a')) as [Heq | ]; [ | discriminate ].
    injection Hm as <-. exact Heq. }
  unfold block_dematrixify.
  rewrite reshape_Int by (fold (size a'); congruence). rewrite bind_Ok.
  pose proof (is_permutation_spec _ _ Hperm) as [Hlen _].
  set (r := mk_ndarray (shape a') (data matrix')).
  assert (Hwfr : wf r).
  { unfold wf, size, r in *. simpl. congruence. }
  assert (Hpermr : is_permutation (ndim r) (inverse_permutation (idcs1 ++ idcs2)) = true).
  { unfold ndim, r. simpl. rewrite Hshape, take_axes_length, Hlen.
    apply inverse_permutation_is_permutation. exact Hperm. }
  destruct (transpose_spec r _ Hwfr Hpermr) as [res [Hres [Hshape' [Hwfres _]]]].
  exists res. split; [ exact Hres | ]. split; [ | exact Hwfres ].
  rewrite Hshape'. unfold r. simpl. rewrite Hshape.
  apply (take_axes_inverse (ndim a)); [ exact Hperm | reflexivity ].
Qed.

End MatrixifyShape.

Section EyeFacts.

Context {A : Type}.
Variable zero one : A.
Variable itemsize : nat.

Lemma product_max_1 (l : list nat) :
  product l <= product (map (Nat.max 1) l) /\ 1 <= product (map (Nat.max 1) l).
Proof.
  induction l as [ | d l [IHle IHpos] ]; simpl; [ lia | ].
  split; [ apply Nat.mul_le_mono; lia | nia ].
Qed.

Lemma int64_small (z : Z) : (0 <= z < 2 ^ 63)%Z -> int64 z = z.
Proof. intros Hz. unfold int64. rewrite Z.mod_small; lia. Qed.

(** When the product of the dimensions is a multiple of 2^64 (as for
    [2^32, 2^32]) it wraps to zero: [np.eye(0)] is empty and cannot be
    reshaped. *)
Lemma eye_block_wraps (legs : list nat) :
  legs <> [] ->
  product legs <> 0 ->
  (Z.of_nat (product legs) mod 2 ^ 64 = 0)%Z ->
  fits itemsize [] = true ->
  eye_block zero one itemsize legs = Raise (ValueError "cannot reshape array").
Proof.
  intros Hne Hpos Hwrap Hitem. unfold eye_block.
  assert (Hprod : prod_int64 legs = inl 0%Z).
  { unfold prod_int64. destruct legs; [ congruence | ]. f_equal. unfold int64.
    rewrite <- Zplus_mod_idemp_l, Hwrap. reflexivity. }
  rewrite Hprod. cbn [eye].
  change (0 <? 0)%Z with false. change (Z.to_nat 0) with 0. cbv iota.
  change (fits itemsize [0; 0]) with (fits itemsize []).
  rewrite Hitem, bind_Ok. unfold reshape_to, reshape.
  rewrite as_ints_Int. unfold size. cbn [shape]. change (product [0; 0]) with 0.
  destruct (Nat.eqb_spec (product (legs ++ legs)) 0) as [Hzero | _]; [ | reflexivity ].
  rewrite product_app in Hzero. nia.
Qed.

(** X27.  For a non-empty list of dimensions such that the array of shape
    [legs + legs] fits, [eye_block] is the identity on the combined legs: its
    shape is [legs + legs], and its element at [(i, j)], for multi-indices
    [i] and [j] into [legs], is one when [i = j] and zero otherwise. *)
Theorem eye_block_identity (legs : list nat) :
  legs <> [] ->
  0 < itemsize ->
  fits itemsize (legs ++ legs) = true ->
  exists eye,
    eye_block zero one itemsize legs = Ok eye /\
    shape eye = legs ++ legs /\
    wf eye /\
    forall i j, in_bounds legs i -> in_bounds legs j ->
      item eye (i ++ j) = Some (if decide (i = j) then one else zero).
Proof.
  intros Hne Hitem Hfits. unfold eye_block.
  set (n := product legs).
  destruct (product_max_1 legs) as [Hle Hpos].
  set (P := product (map (Nat.max 1) legs)) in *.
  assert (Hbig : (Z.of_nat itemsize * Z.of_nat (P * P) < 2 ^ 63)%Z).
  { unfold fits in Hfits. apply Z.ltb_lt in Hfits.
    rewrite map_app, product_app in Hfits. exact Hfits. }
  assert (Hn : (0 <= Z.of_nat n < 2 ^ 63)%Z).
  { split; [ lia | ]. eapply Z.le_lt_trans; [ | exact Hbig ].
    rewrite <- Nat2Z.inj_mul. apply Nat2Z.inj_le. fold n in Hle. nia. }
  assert (Hprod : prod_int64 legs = inl (Z.of_nat n)).
  { unfold prod_int64. destruct legs; [ congruence | ]. fold n.
    rewrite int64_small by exact Hn. reflexivity. }
  rewrite Hprod. cbn [eye].
  destruct (Z.ltb_spec (Z.of_nat n) 0) as [Hneg | _]; [ lia | ].
  rewrite Nat2Z.id.
  assert (Hsquare : fits itemsize [n; n] = true).
  { unfold fits. apply Z.ltb_lt. eapply Z.le_lt_trans; [ | exact Hbig ].
    rewrite <- !Nat2Z.inj_mul. apply Nat2Z.inj_le. simpl. fold n in Hle.
    apply Nat.mul_le_mono_l. rewrite Nat.mul_1_r.
    apply Nat.mul_le_mono; lia. }
  rewrite Hsquare, bind_Ok. unfold reshape_to.
  rewrite reshape_Int by (unfold size; simpl; rewrite product_app; fold n; lia).
  rewrite bind_Ok. cbn [shape]. rewrite Hfits.
  eexists. split; [ reflexivity | ]. split; [ reflexivity | ]. split.
  - unfold wf, size. simpl. rewrite length_map, length_seq, product_app. reflexivity.
  - intros i j Hi Hj. unfold item. simpl.
    rewrite (ravel_app _ _ _ _ Hi). fold n.
    pose proof (ravel_bound _ _ Hi) as Hri. pose proof (ravel_bound _ _ Hj) as Hrj.
    fold n in Hri, Hrj.
    rewrite list_lookup_fmap, lookup_seq_lt by nia. simpl. f_equal.
    rewrite Nat.div_add_l, Nat.div_small, Nat.add_0_r by lia.
    rewrite Nat.add_comm, Nat.Div0.mod_add, Nat.mod_small by lia.
    destruct (Nat.eqb_spec (ravel legs i) (ravel legs j)) as [Heq | Hneq];
      destruct (decide (i = j)) as [Hij | Hij]; try reflexivity.
    + exfalso. apply Hij. eapply ravel_inj; eauto.
    + exfalso. apply Hneq. rewrite Hij. reflexivity.
Qed.

End EyeFacts.

Lemma block_dematrixify_block_matrixify_witness :
  exists matrix aux,
    block_matrixify block_2x3x2 [2; 0] [1] = Ok (matrix, aux) /\
    ndim matrix = 2 /\
    block_dematrixify matrix aux = Ok block_2x3x2.
Proof.
  apply (block_dematrixify_block_matrixify block_2x3x2 [2; 0] [1]);
    [ reflexivity | reflexivity | discriminate | discriminate ].
Defined.

Lemma block_matrixify_shape_witness :
  exists matrix,
    block_matrixify block_2x3x2 [2; 0] [1] = Ok (matrix, ([2; 0; 1], [2; 2; 3])) /\
    shape matrix = [4; 3] /\ wf matrix /\ size matrix = 12.
Proof.
  apply (block_matrixify_shape block_2x3x2 [2; 0] [1]);
    [ reflexivity | reflexivity | discriminate | discriminate ].
Defined.

Lemma block_dematrixify_same_size_witness :
  exists res,
    block_dematrixify matrix_4x3 ([2; 0; 1], [2; 2; 3]) = Ok res /\
    shape res = [2; 3; 2] /\ wf res.
Proof.
  apply (block_dematrixify_same_size block_2x3x2
           (mk_ndarray [4; 3] [0; 2; 4; 6; 8; 10; 1; 3; 5; 7; 9; 11]) matrix_4x3 [2; 0] [1]);
    reflexivity.
Defined.

Lemma eye_block_identity_witness :
  exists eye,
    eye_block 0%Z 1%Z 8 [2; 3] = Ok eye /\
    shape eye = [2; 3; 2; 3] /\
    wf eye /\
    forall i j, in_bounds [2; 3] i -> in_bounds [2; 3] j ->
      item eye (i ++ j) = Some (if decide (i = j) then 1%Z else 0%Z).
Proof.
  apply (eye_block_identity 0%Z 1%Z 8 [2; 3]); [ discriminate | lia | reflexivity ].
Defined.

(** *** [block_outer] *)

Section OuterFacts.

Context {A : Type}.
Variable mul : A -> A -> A.

(** X29.  [block_outer] has the axes of [a] followed by those of [b], and
    its element at the multi-index [(i, j)] is the product of the element of
    [a] at [i] and the element of [b] at [j]. *)
Theorem block_outer_item (a b : Block A) :
  wf a -> wf b ->
  shape (block_outer mul a b) = shape a ++ shape b /\
  wf (block_outer mul a b) /\
  forall i j x y, in_bounds (shape a) i -> item a i = Some x -> item b j = Some y ->
    in_bounds (shape b) j ->
    item (block_outer mul a b) (i ++ j) = Some (mul x y).
Proof.
  intros Hwfa Hwfb. unfold block_outer, tensordot_no_axes.
  assert (Hlen : forall x, length (map (mul x) (data b)) = size b).
  { intros x. rewrite length_map. exact Hwfb. }
  split; [ reflexivity | ]. split.
  - unfold wf, size. simpl. rewrite (flat_map_length_uniform _ _ _ Hlen), product_app.
    rewrite Hwfa. reflexivity.
  - intros i j x y Hi Hx Hy Hj. unfold item in *. simpl.
    rewrite (ravel_app _ _ _ _ Hi).
    rewrite (flat_map_lookup _ _ _ Hlen) by (apply ravel_bound; exact Hj).
    rewrite Hx. simpl. rewrite list_lookup_fmap, Hy. reflexivity.
Qed.

End OuterFacts.

Lemma block_outer_item_witness :
  item (block_outer Z.mul block_2x2 block_2x2) ([1; 0] ++ [0; 1]) = Some (3 * 2)%Z.
Proof.
  destruct (block_outer_item Z.mul block_2x2 block_2x2) as [_ [_ Hitem]];
    [ reflexivity | reflexivity | ].
  apply Hitem; [ repeat constructor | reflexivity | reflexivity | repeat constructor ].
Defined.

(** *** [block_trace_full] *)

Section TraceFacts.

Context {A : Type}.
Variable zero : A.
Variable add : A -> A -> A.

Lemma block_trace_full_value (a : Block A) (idcs1 idcs2 : list nat) :
  wf a -> is_permutation (ndim a) (idcs1 ++ idcs2) = true -> idcs1 <> [] ->
  product (take_axes idcs1 (shape a)) = product (take_axes idcs2 (shape a)) ->
  block_trace_full zero add a idcs1 idcs2 = Ok (fold_left add (traced a idcs1 idcs2) zero).
Proof.
  intros Hwf Hperm Hne Hdim.
  destruct (transpose_spec a _ Hwf Hperm) as [a' [Ha' [Hshape [Hwf' Hdata]]]].
  set (s1 := take_axes idcs1 (shape a)) in *. set (s2 := take_axes idcs2 (shape a)) in *.
  assert (Hshape' : shape a' = s1 ++ s2) by (rewrite Hshape; apply take_axes_app).
  assert (Hfirst : firstn (length idcs1) (shape a') = s1).
  { rewrite Hshape', <- (take_axes_length idcs1 (shape a)). apply take_app_length. }
  assert (Hsize : size a' = product s1 * product s1).
  { unfold size. rewrite Hshape', product_app. rewrite <- Hdim. reflexivity. }
  unfold block_trace_full. rewrite Ha', bind_Ok, Hfirst.
  rewrite prod_nonempty by (subst s1; destruct idcs1; simpl; congruence).
  change [Int ?x; Int ?y] with (map Int [x; y]).
  rewrite reshape_Int by (simpl; lia). rewrite bind_Ok.
  unfold trace. cbn [shape data]. rewrite Nat.min_id. f_equal. f_equal.
  unfold traced. fold s1 s2.
  apply omap_ext_in. intros k Hk%in_seq.
  rewrite Hdata by (rewrite Hsize; nia).
  rewrite Hshape', Hdim at 1.
  rewrite unravel_app by lia. reflexivity.
Qed.

(** X28.  When the two non-empty groups of axes have the same total
    dimension, [block_trace_full] returns the sum of the elements of the
    block at the multi-indices that agree on the two groups, and gives the
    same result with the two groups exchanged. *)
Theorem block_trace_full_swap (a : Block A) (idcs1 idcs2 : list nat) :
  wf a -> is_permutation (ndim a) (idcs1 ++ idcs2) = true ->
  idcs1 <> [] -> idcs2 <> [] ->
  product (take_axes idcs1 (shape a)) = product (take_axes idcs2 (shape a)) ->
  exists t,
    block_trace_full zero add a idcs1 idcs2 = Ok t /\
    block_trace_full zero add a idcs2 idcs1 = Ok t /\
    t = fold_left add (traced a idcs1 idcs2) zero.
Proof.
  intros Hwf Hperm Hne1 Hne2 Hdim.
  exists (fold_left add (traced a idcs1 idcs2) zero).
  split; [ apply block_trace_full_value; assumption | ]. split; [ | reflexivity ].
  rewrite block_trace_full_value;
    [ | exact Hwf | apply is_permutation_app_comm; exact Hperm | exact Hne2
      | symmetry; exact Hdim ].
  f_equal. f_equal. unfold traced. rewrite <- Hdim.
  apply omap_ext_in. intros k Hk%in_seq. f_equal.
  symmetry. apply (source_index_app_comm (ndim a)); [ exact Hperm | | ];
    rewrite unravel_length; apply take_axes_length.
Qed.

End TraceFacts.

Lemma block_trace_full_swap_witness :
  block_trace_full 0%Z Z.add block_2x2 [0] [1] = Ok 5%Z /\
  block_trace_full 0%Z Z.add block_2x2 [1] [0] = Ok 5%Z.
Proof.
  destruct (block_trace_full_swap 0%Z Z.add block_2x2 [0] [1]) as [t [H1 [H2 Ht]]];
    [ reflexivity | reflexivity | discriminate | discriminate | reflexivity | ].
  vm_compute in Ht. subst t. split; assumption.
Defined.

(** *** More on [matrix_svd] *)

Section MatrixSvdOk.

Context {A : Type}.
Variable scipy_linalg_svd : Block A -> result (USV A).

(** X21.  Whatever the algorithm, an SVD that [matrix_svd] returns is the
    one the default driver returned, and the default driver is all that was
    called. *)
Theorem matrix_svd_Ok (a : Block A) (algorithm : option string) (usv : USV A) :
  (matrix_svd scipy_linalg_svd a algorithm).2 = Ok usv ->
  scipy_linalg_svd a = Ok usv /\
  (matrix_svd scipy_linalg_svd a algorithm).1 = [call_scipy_svd a].
Proof.
  unfold matrix_svd, scipy_svd, _svd_gesvd.
  destruct (String.eqb _ "gesdd"); [ intros Hok; split; [ exact Hok | reflexivity ] | ].
  destruct (str_in _ ["robust"; "robust_silent"]).
  - destruct (scipy_linalg_svd a) as [usv' | e].
    + intros Hok; split; [ exact Hok | reflexivity ].
    + destruct e; try discriminate. destruct (negb _); discriminate.
  - destruct (String.eqb _ "gesvd"); discriminate.
Qed.
End MatrixSvdOk.

Lemma matrix_svd_Ok_witness :
  echo_svd block_1x1 = Ok (block_1x1, block_1x1, block_1x1) /\
  (matrix_svd echo_svd block_1x1 (Some "robust")).1 = [call_scipy_svd block_1x1].
Proof.
  apply (matrix_svd_Ok echo_svd block_1x1 (Some "robust") (block_1x1, block_1x1, block_1x1)).
  reflexivity.
Defined.

(** *** [_block_repr_lines] *)

Section ReprFacts.

Import PySlice.

Context {A : Type}.
Variable str_lines : Block A -> Z -> list string.

(** X22.  A text of more than [max_lines] lines, for [max_lines] at least
    two, is cut to exactly [max_lines] lines: the first
    [(max_lines - 1) // 2] lines, the marker, and the last lines. *)
Theorem block_repr_lines_truncated (a : Block A) (indent : string) (max_width max_lines : Z) :
  let lines := map (fun line => (indent ++ line)%string)
                 (str_lines a (max_width - Z.of_nat (String.length indent))) in
  let first := Z.to_nat ((max_lines - 1) / 2) in
  let last := Z.to_nat max_lines - 1 - first in
  (2 <= max_lines < Z.of_nat (length lines))%Z ->
  _block_repr_lines str_lines a indent max_width max_lines
    = firstn first lines ++ [(indent ++ "...")%string] ++ skipn (length lines - last) lines /\
  length (_block_repr_lines str_lines a indent max_width max_lines) = Z.to_nat max_lines /\
  0 < last.
Proof.
  intros lines first last Hmax. unfold _block_repr_lines. fold lines.
  assert (Hgt : (Z.of_nat (length lines) >? max_lines)%Z = true) by (apply Z.gtb_lt; lia).
  rewrite Hgt. cbv zeta.
  assert (Hdiv : (0 <= (max_lines - 1) / 2 /\ 2 * ((max_lines - 1) / 2) <= max_lines - 1)%Z).
  { split; [ apply Z.div_pos; lia | apply Z.mul_div_le; lia ]. }
  assert (Hto : slice_to lines ((max_lines - 1) / 2) = firstn first lines).
  { unfold slice_to, clip. destruct (Z.ltb_spec ((max_lines - 1) / 2) 0); [ lia | ].
    f_equal. subst first. lia. }
  assert (Hfrom : slice_from lines (- (max_lines - 1 - (max_lines - 1) / 2))
                  = skipn (length lines - last) lines).
  { unfold slice_from, clip.
    destruct (Z.ltb_spec (- (max_lines - 1 - (max_lines - 1) / 2)) 0); [ | lia ].
    f_equal. subst last first. lia. }
  rewrite Hto, Hfrom. split; [ reflexivity | ].
  split; [ | subst last first; lia ].
  rewrite !length_app, length_firstn, length_skipn. simpl. subst last first. lia.
Qed.

(** X23.  With [max_lines = 1] nothing is cut: [lines[-0:]] is the whole
    list, so the result is the marker followed by every line. *)
Theorem block_repr_lines_one_line (a : Block A) (indent : string) (max_width : Z) :
  let lines := map (fun line => (indent ++ line)%string)
                 (str_lines a (max_width - Z.of_nat (String.length indent))) in
  1 < length lines ->
  _block_repr_lines str_lines a indent max_width 1 = (indent ++ "...")%string :: lines.
Proof.
  intros lines Hlen. unfold _block_repr_lines. fold lines.
  assert (Hgt : (Z.of_nat (length lines) >? 1)%Z = true) by (apply Z.gtb_lt; lia).
  rewrite Hgt. cbv zeta.
  change ((1 - 1) / 2)%Z with 0%Z. change (- (1 - 1 - 0))%Z with 0%Z.
  unfold slice_to, slice_from, clip. cbn [Z.ltb Z.compare].
  rewrite Z.min_l by lia. reflexivity.
Qed.

End ReprFacts.

Lemma block_repr_lines_truncated_witness :
  _block_repr_lines five_lines block_2x3 "  " 80 3 = ["  [[0 1]"; "  ..."; "   [8 9]]"].
Proof.
  destruct (block_repr_lines_truncated five_lines block_2x3 "  " 80 3) as [Heq _].
  - simpl. lia.
  - exact Heq.
Defined.

Lemma block_repr_lines_one_line_witness :
  _block_repr_lines five_lines block_2x3 "" 80 1
    = ["..."; "[[0 1]"; " [2 3]"; " [4 5]"; " [6 7]"; " [8 9]]"].
Proof.
  apply (block_repr_lines_one_line five_lines block_2x3 "" 80). simpl. lia.
Defined.

End NumpyBackendFacts.

(** ** [get_backend] *)

Module BackendFactoryFacts.

Import BackendFactory.

Section Facts.

Context {Symmetry : Type} `{SymmetryModel Symmetry} `{BackendConstructors}.

(** The kind is selected from the symmetry when none is given. *)
Lemma select_symmetry_backend_spec (symmetry : Symmetry) :
  select_symmetry_backend symmetry =
    if symmetry_eq symmetry no_symmetry then "no_symmetry"
    else if is_abelian symmetry then "abelian" else "nonabelian".
Proof. reflexivity. Qed.

(** The placeholders of the rows 'no_symmetry' and 'abelian' signal
    NotImplementedError, and the state is left as it was. *)
Lemma get_backend_placeholder (symmetry : Symmetry) (block_backend kind : string) (st : State) :
  kind = "no_symmetry" \/ kind = "abelian" ->
  block_backend = "tensorflow" \/ block_backend = "jax" \/ block_backend = "tpu" ->
  get_backend symmetry block_backend (Some kind) st
    = (Raise (NotImplementedError
                ("Backend not implemented " ++ kind ++ " & " ++ block_backend)), st).
Proof.
  intros [-> | ->] [-> | [-> | ->]]; reflexivity.
Qed.

(** C4 (what the code does for the kind 'nonabelian').  The table has no
    row 'nonabelian' (its third row is spelled 'non_abelian'), so for a
    symmetry that is neither [no_symmetry] nor abelian, and likewise for an
    explicit 'nonabelian', the lookup raises KeyError for every block backend. *)
Theorem get_backend_nonabelian_KeyError (symmetry : Symmetry) (block_backend : string)
    (st : State) :
  str_in block_backend block_backends = true ->
  symmetry_eq symmetry no_symmetry = false ->
  is_abelian symmetry = false ->
  select_symmetry_backend symmetry = "nonabelian" /\
  get_backend symmetry block_backend None st = (Raise (KeyError "nonabelian"), st) /\
  get_backend symmetry block_backend (Some "nonabelian") st
    = (Raise (KeyError "nonabelian"), st).
Proof.
  intros Hbb Hno Hab.
  assert (Hsel : select_symmetry_backend symmetry = "nonabelian").
  { unfold select_symmetry_backend. rewrite Hno, Hab. reflexivity. }
  split; [ exact Hsel | ].
  unfold get_backend, resolve. rewrite Hbb, Hsel. simpl. split; reflexivity.
Qed.

(** *** The cache *)

(** What a call does once the names are resolved: a cached key is answered
    from the cache; otherwise the constructor runs, and its object is
    appended and entered under the key. *)
Lemma get_backend_hit symmetry block_backend symmetry_backend cls kwargs key backend st :
  resolve symmetry block_backend symmetry_backend = Ok (cls, kwargs, key) ->
  _instantiated_backends st !! key = Some backend ->
  get_backend symmetry block_backend symmetry_backend st = (Ok backend, st).
Proof.
  intros Hres Hkey. unfold get_backend. rewrite Hres, Hkey. reflexivity.
Qed.

Lemma get_backend_miss symmetry block_backend symmetry_backend cls kwargs key st :
  resolve symmetry block_backend symmetry_backend = Ok (cls, kwargs, key) ->
  _instantiated_backends st !! key = None ->
  is_ok (construct cls kwargs) = true ->
  get_backend symmetry block_backend symmetry_backend st
    = (Ok (length (objects st)),
       mk_State (<[key := length (objects st)]> (_instantiated_backends st))
                (objects st ++ [(cls, kwargs)])).
Proof.
  intros Hres Hkey Hctor. unfold get_backend. rewrite Hres, Hkey.
  destruct (construct cls kwargs); [ reflexivity | discriminate ].
Qed.

(** The instance a call returns is in the cache under the key afterwards. *)
Lemma get_backend_cached symmetry block_backend symmetry_backend cls kwargs key backend st :
  resolve symmetry block_backend symmetry_backend = Ok (cls, kwargs, key) ->
  (get_backend symmetry block_backend symmetry_backend st).1 = Ok backend ->
  _instantiated_backends
    (get_backend symmetry block_backend symmetry_backend st).2 !! key = Some backend.
Proof.
  intros Hres. unfold get_backend. rewrite Hres.
  destruct (_instantiated_backends st !! key) as [cached | ] eqn:Hkey; simpl.
  - intros [= <-]. exact Hkey.
  - destruct (construct cls kwargs); simpl; [ | discriminate ].
    intros [= <-]. apply lookup_insert_eq.
Qed.

(** A call returns when its names resolve and its constructor returns. *)
Lemma get_backend_returns symmetry block_backend symmetry_backend cls kwargs key st :
  resolve symmetry block_backend symmetry_backend = Ok (cls, kwargs, key) ->
  is_ok (construct cls kwargs) = true ->
  exists backend, (get_backend symmetry block_backend symmetry_backend st).1 = Ok backend.
Proof.
  intros Hres Hctor.
  destruct (_instantiated_backends st !! key) as [cached | ] eqn:Hkey.
  - exists cached. rewrite (get_backend_hit _ _ _ _ _ _ _ _ Hres Hkey). reflexivity.
  - eexists. rewrite (get_backend_miss _ _ _ _ _ _ _ Hres Hkey Hctor). reflexivity.
Qed.

(** The two outcomes of a step: the state is left alone, or one object is
    added under a key that was not cached. *)
Lemma step_cases st st' :
  step st st' ->
  st' = st \/
  exists symmetry block_backend symmetry_backend cls kwargs key,
    resolve symmetry block_backend symmetry_backend = Ok (cls, kwargs, key) /\
    _instantiated_backends st !! key = None /\
    st' = mk_State (<[key := length (objects st)]> (_instantiated_backends st))
                   (objects st ++ [(cls, kwargs)]).
Proof.
  intros Hstep. destruct Hstep as [symmetry block_backend symmetry_backend st].
  unfold get_backend.
  destruct (resolve symmetry block_backend symmetry_backend) as [[[cls kwargs] key] | e]
    eqn:Hres; [ | left; reflexivity ].
  destruct (_instantiated_backends st !! key) as [cached | ] eqn:Hkey;
    [ left; reflexivity | ].
  destruct (construct cls kwargs); [ | left; reflexivity ].
  right. exists symmetry, block_backend, symmetry_backend, cls, kwargs, key. auto.
Qed.

(** Entries are never removed nor replaced. *)
Lemma step_keeps_entry st st' key backend :
  step st st' ->
  _instantiated_backends st !! key = Some backend ->
  _instantiated_backends st' !! key = Some backend.
Proof.
  intros Hstep Hkey.
  destruct (step_cases _ _ Hstep) as [-> | (? & ? & ? & cls & kwargs & key' & _ & Hkey' & ->)];
    [ exact Hkey | ].
  simpl. rewrite lookup_insert_ne; [ exact Hkey | congruence ].
Qed.

Lemma steps_keep_entry st st' key backend :
  steps st st' ->
  _instantiated_backends st !! key = Some backend ->
  _instantiated_backends st' !! key = Some backend.
Proof.
  induction 1 as [ | st st' st'' Hstep _ IH ]; intros Hkey; [ exact Hkey | ].
  apply IH. eapply step_keeps_entry; eauto.
Qed.

Lemma one_instance_per_key_initial : one_instance_per_key initial.
Proof.
  split.
  - intros key backend Hkey. simpl in Hkey. rewrite lookup_empty in Hkey. discriminate.
  - intros backend Hlt. simpl in Hlt. lia.
Qed.

Lemma one_instance_per_key_step st st' :
  one_instance_per_key st -> step st st' -> one_instance_per_key st'.
Proof.
  intros [Hbound Huniq] Hstep.
  destruct (step_cases _ _ Hstep) as [-> | (? & ? & ? & cls & kwargs & key & _ & Hkey & ->)];
    [ split; assumption | ].
  split; simpl.
  - intros key' backend. rewrite length_app; simpl.
    destruct (decide (key = key')) as [<- | Hne].
    + rewrite lookup_insert_eq. intros [= <-]. lia.
    + rewrite lookup_insert_ne by exact Hne. intros Hkey'.
      apply Hbound in Hkey'. lia.
  - intros backend. rewrite length_app; simpl. intros Hlt.
    destruct (decide (backend = length (objects st))) as [-> | Hold].
    + exists key. split; [ apply lookup_insert_eq | ].
      intros key'. destruct (decide (key = key')) as [<- | Hne]; [ reflexivity | ].
      rewrite lookup_insert_ne by exact Hne. intros Hkey'.
      apply Hbound in Hkey'. lia.
    + destruct (Huniq backend) as [key0 [Hkey0 Hone]]; [ lia | ].
      assert (key <> key0) by congruence.
      exists key0. split; [ rewrite lookup_insert_ne; assumption | ].
      intros key'. destruct (decide (key = key')) as [<- | Hne].
      * rewrite lookup_insert_eq. intros [= Heq]. lia.
      * rewrite lookup_insert_ne by exact Hne. apply Hone.
Qed.

Lemma one_instance_per_key_reachable st : reachable st -> one_instance_per_key st.
Proof.
  induction 1 as [ | st st' _ IH Hstep ].
  - apply one_instance_per_key_initial.
  - eapply one_instance_per_key_step; eauto.
Qed.

Lemma reachable_steps st st' : reachable st -> steps st st' -> reachable st'.
Proof.
  intros Hr Hs. induction Hs as [ | st st' st'' Hstep _ IH ]; [ exact Hr | ].
  apply IH. econstructor; eauto.
Qed.

Lemma str_in_cons (x y : string) (l : list string) :
  str_in x (y :: l) = true -> x = y \/ str_in x l = true.
Proof.
  unfold str_in; simpl. intros [Heq | Hl]%orb_prop; [ left; apply String.eqb_eq, Heq | right; exact Hl ].
Qed.

Lemma resolve_entry symmetry block_backend symmetry_backend cls kwargs key :
  resolve symmetry block_backend symmetry_backend = Ok (cls, kwargs, key) ->
  lookup_entry key = Some (cls, kwargs) /\ In key implemented_keys.
Proof.
  unfold resolve.
  destruct (str_in block_backend block_backends) eqn:Hbb; cbn [negb]; [ | discriminate ].
  remember (match symmetry_backend with
            | Some s => s
            | None => select_symmetry_backend symmetry
            end) as kind eqn:Hk. clear Hk.
  destruct (str_in kind symmetry_backends) eqn:Hkind; cbn [negb]; [ | discriminate ].
  unfold block_backends in Hbb. unfold symmetry_backends in Hkind.
  repeat (apply str_in_cons in Hkind as [-> | Hkind]);
    repeat (apply str_in_cons in Hbb as [-> | Hbb]);
    try (vm_compute in Hkind; discriminate Hkind);
    try (vm_compute in Hbb; discriminate Hbb);
    intros Heq; vm_compute in Heq; try discriminate Heq;
    injection Heq as <- <- <-;
    (split; [ vm_compute; reflexivity
            | unfold implemented_keys; repeat first [ left; reflexivity | right ] ]).
Qed.

Lemma cache_consistent_initial : cache_consistent initial.
Proof. intros key backend Hkey. simpl in Hkey. rewrite lookup_empty in Hkey. discriminate. Qed.

Lemma cache_consistent_step st st' :
  cache_consistent st -> step st st' -> cache_consistent st'.
Proof.
  intros Hcons Hstep.
  destruct (step_cases _ _ Hstep) as [-> | (? & ? & ? & cls & kwargs & key & Hres & Hkey & ->)];
    [ exact Hcons | ].
  intros key' backend. simpl.
  destruct (decide (key = key')) as [<- | Hne].
  - rewrite lookup_insert_eq. intros [= <-].
    exists (cls, kwargs). split; [ apply (resolve_entry _ _ _ _ _ _ Hres) | ].
    rewrite lookup_app_r by lia. rewrite Nat.sub_diag. reflexivity.
  - rewrite lookup_insert_ne by exact Hne. intros Hkey'.
    destruct (Hcons key' backend Hkey') as [entry [Hentry Hobj]].
    exists entry. split; [ exact Hentry | ].
    apply lookup_app_l_Some. exact Hobj.
Qed.

Lemma cache_consistent_reachable st : reachable st -> cache_consistent st.
Proof.
  induction 1 as [ | st st' _ IH Hstep ].
  - apply cache_consistent_initial.
  - eapply cache_consistent_step; eauto.
Qed.

(** The cached instance of a resolved key is an object of its class. *)
Lemma cached_object symmetry block_backend symmetry_backend cls kwargs key backend st :
  reachable st ->
  resolve symmetry block_backend symmetry_backend = Ok (cls, kwargs, key) ->
  _instantiated_backends st !! key = Some backend ->
  objects st !! backend = Some (cls, kwargs).
Proof.
  intros Hreach Hres Hkey.
  destruct (cache_consistent_reachable _ Hreach key backend Hkey) as [entry [Hentry Hobj]].
  destruct (resolve_entry _ _ _ _ _ _ Hres) as [Hentry' _]. congruence.
Qed.

(** C5.  Two calls that resolve to the same key, with any calls in between,
    the constructor of the class returning.  The first call returns an
    instance that is in the cache under the key afterwards, and which it
    constructed (as the newest object, of the class and with the options of
    the table) when the key was not cached before; the second call finds
    that instance still cached, returns the very same one, constructs
    nothing and leaves the state as it is; and every backend object ever
    constructed is the cached instance of exactly one key. *)
Theorem get_backend_same_instance
    symmetry1 block_backend1 symmetry_backend1 cls1 kwargs1
    symmetry2 block_backend2 symmetry_backend2 cls2 kwargs2 key st st' :
  reachable st ->
  resolve symmetry1 block_backend1 symmetry_backend1 = Ok (cls1, kwargs1, key) ->
  resolve symmetry2 block_backend2 symmetry_backend2 = Ok (cls2, kwargs2, key) ->
  is_ok (construct cls1 kwargs1) = true ->
  steps (get_backend symmetry1 block_backend1 symmetry_backend1 st).2 st' ->
  exists backend,
    (get_backend symmetry1 block_backend1 symmetry_backend1 st).1 = Ok backend /\
    (_instantiated_backends st !! key = None ->
       backend = length (objects st) /\
       objects (get_backend symmetry1 block_backend1 symmetry_backend1 st).2
         = objects st ++ [(cls1, kwargs1)]) /\
    _instantiated_backends
      (get_backend symmetry1 block_backend1 symmetry_backend1 st).2 !! key = Some backend /\
    _instantiated_backends st' !! key = Some backend /\
    objects st' !! backend = Some (cls1, kwargs1) /\
    get_backend symmetry2 block_backend2 symmetry_backend2 st' = (Ok backend, st') /\
    one_instance_per_key st' /\
    forall key', _instantiated_backends st' !! key' = Some backend -> key' = key.
Proof.
  intros Hreach Hres1 Hres2 Hctor Hsteps.
  destruct (get_backend_returns _ _ _ _ _ _ st Hres1 Hctor) as [backend Hret].
  pose proof (get_backend_cached _ _ _ _ _ _ _ _ Hres1 Hret) as Hcached.
  pose proof (steps_keep_entry _ _ _ _ Hsteps Hcached) as Hcached'.
  assert (Hreach' : reachable st').
  { eapply reachable_steps; [ | exact Hsteps ].
    econstructor; [ exact Hreach | constructor ]. }
  pose proof (one_instance_per_key_reachable _ Hreach') as Hinv.
  exists backend. split; [ exact Hret | ].
  split.
  { intros Hnew. rewrite (get_backend_miss _ _ _ _ _ _ _ Hres1 Hnew Hctor) in Hret |- *.
    simpl in Hret |- *. injection Hret as <-. split; reflexivity. }
  split; [ exact Hcached | ]. split; [ exact Hcached' | ].
  split; [ eapply cached_object; eauto | ].
  split; [ eapply get_backend_hit; eauto | ].
  split; [ exact Hinv | ].
  intros key' Hkey'. destruct Hinv as [Hbound Huniq].
  destruct (Huniq backend) as [key0 [_ Hone]]; [ eapply Hbound; eauto | ].
  rewrite (Hone key' Hkey'). symmetry. apply Hone. exact Hcached'.
Qed.

End Facts.

(** C4, on a non-abelian symmetry with the default block backend. *)
Lemma get_backend_SU2_numpy :
  get_backend SU2Symmetry "numpy" None initial = (Raise (KeyError "nonabelian"), initial).
Proof. reflexivity. Qed.

Lemma get_backend_nonabelian_KeyError_witness :
  str_in "numpy" block_backends = true /\
  symmetry_eq SU2Symmetry no_symmetry = false /\
  is_abelian SU2Symmetry = false /\
  get_backend SU2Symmetry "numpy" None initial = (Raise (KeyError "nonabelian"), initial).
Proof.
  repeat (split; [ reflexivity | ]).
  apply (get_backend_nonabelian_KeyError SU2Symmetry "numpy" initial); reflexivity.
Defined.

Lemma get_backend_same_instance_witness :
  exists backend,
    (get_backend NoSymmetry "numpy" None initial).1 = Ok backend /\
    (_instantiated_backends initial !! ("no_symmetry", "numpy", []) = None ->
       backend = length (objects initial) /\
       objects (get_backend NoSymmetry "numpy" None initial).2
         = objects initial ++ [(NoSymmetryNumpyBackend, [])]) /\
    _instantiated_backends (get_backend NoSymmetry "numpy" None initial).2
      !! ("no_symmetry", "numpy", []) = Some backend /\
    _instantiated_backends after_second !! ("no_symmetry", "numpy", []) = Some backend /\
    objects after_second !! backend = Some (NoSymmetryNumpyBackend, []) /\
    get_backend NoSymmetry "numpy" (Some "no_symmetry") after_second
      = (Ok backend, after_second) /\
    one_instance_per_key after_second /\
    forall key', _instantiated_backends after_second !! key' = Some backend ->
      key' = ("no_symmetry", "numpy", []).
Proof.
  apply (get_backend_same_instance
           NoSymmetry "numpy" None NoSymmetryNumpyBackend []
           NoSymmetry "numpy" (Some "no_symmetry") NoSymmetryNumpyBackend []
           ("no_symmetry", "numpy", []) initial after_second).
  - apply reachable_initial.
  - reflexivity.
  - reflexivity.
  - reflexivity.
  - eapply steps_cons; [ apply (step_call U1Symmetry "gpu" None) | apply steps_refl ].
Defined.

(** *** More on the cache *)

Section MoreFacts.

Context {Symmetry : Type} `{SymmetryModel Symmetry} `{BackendConstructors}.

(** X13.  A call that raises leaves the cache and the objects as they were. *)
Theorem get_backend_error_keeps_state symmetry block_backend symmetry_backend st e :
  (get_backend symmetry block_backend symmetry_backend st).1 = Raise e ->
  (get_backend symmetry block_backend symmetry_backend st).2 = st.
Proof.
  unfold get_backend.
  destruct (resolve symmetry block_backend symmetry_backend) as [[[cls kwargs] key] | e'];
    [ | reflexivity ].
  destruct (_instantiated_backends st !! key); simpl; [ reflexivity | ].
  destruct (construct cls kwargs); simpl; [ discriminate | reflexivity ].
Qed.

Lemma is_ok_get_backend symmetry block_backend symmetry_backend st :
  (forall cls kwargs, is_ok (construct cls kwargs) = true) ->
  is_ok (get_backend symmetry block_backend symmetry_backend st).1
  = is_ok (resolve symmetry block_backend symmetry_backend).
Proof.
  intros Hctor. unfold get_backend.
  destruct (resolve symmetry block_backend symmetry_backend) as [[[cls kwargs] key] | e];
    [ | reflexivity ].
  destruct (_instantiated_backends st !! key); [ reflexivity | ].
  specialize (Hctor cls kwargs). destruct (construct cls kwargs); [ reflexivity | discriminate ].
Qed.

(** X14.  When the constructors of the backend classes return, a call
    succeeds exactly for the kinds 'no_symmetry' and 'abelian' with the block
    backends 'numpy', 'torch', 'cpu' and 'gpu'. *)
Theorem get_backend_succeeds_iff symmetry block_backend symmetry_backend st :
  (forall cls kwargs, is_ok (construct cls kwargs) = true) ->
  let kind := match symmetry_backend with
              | Some s => s
              | None => select_symmetry_backend symmetry
              end in
  is_ok (get_backend symmetry block_backend symmetry_backend st).1
  = str_in kind ["no_symmetry"; "abelian"]
    && str_in block_backend ["numpy"; "torch"; "cpu"; "gpu"].
Proof.
  intros Hctor kind. rewrite is_ok_get_backend by exact Hctor. unfold resolve. fold kind.
  generalize kind. clear kind. intros kind.
  unfold str_in, block_backends, symmetry_backends. cbn [existsb].
  repeat match goal with
         | |- context [String.eqb ?x ?s] =>
             is_var x; destruct (String.eqb_spec x s) as [ -> | ? ]
         end;
    try (vm_compute; reflexivity); cbn [negb orb andb is_ok]; try reflexivity.
Qed.

Lemma get_backend_object symmetry block_backend symmetry_backend
    cls kwargs key st :
  reachable st ->
  resolve symmetry block_backend symmetry_backend = Ok (cls, kwargs, key) ->
  is_ok (construct cls kwargs) = true ->
  exists backend,
    (get_backend symmetry block_backend symmetry_backend st).1 = Ok backend /\
    objects (get_backend symmetry block_backend symmetry_backend st).2 !! backend
      = Some (cls, kwargs).
Proof.
  intros Hreach Hres Hctor.
  destruct (get_backend_returns _ _ _ _ _ _ st Hres Hctor) as [backend Hret].
  exists backend. split; [ exact Hret | ].
  assert (Hreach' : reachable (get_backend symmetry block_backend symmetry_backend st).2).
  { econstructor; [ exact Hreach | constructor ]. }
  eapply cached_object; [ exact Hreach' | exact Hres | ].
  eapply get_backend_cached; eauto.
Qed.

(** X15.  From any reachable state, the instance a successful call returns
    is an object of the class that the table gives for the resolved kind and
    block backend, constructed with the table's options (the constructor of
    that class returning). *)
Theorem get_backend_instance_class symmetry block_backend symmetry_backend
    cls kwargs key st :
  reachable st ->
  resolve symmetry block_backend symmetry_backend = Ok (cls, kwargs, key) ->
  is_ok (construct cls kwargs) = true ->
  exists backend,
    (get_backend symmetry block_backend symmetry_backend st).1 = Ok backend /\
    objects (get_backend symmetry block_backend symmetry_backend st).2 !! backend
      = Some (cls, kwargs).
Proof. apply get_backend_object. Qed.

(** X16.  Calls that resolve to different keys return different instances,
    also when the table names the same class for both (as for 'numpy' and
    'cpu'). *)
Theorem get_backend_distinct_instances
    symmetry1 block_backend1 symmetry_backend1 cls1 kwargs1 key1
    symmetry2 block_backend2 symmetry_backend2 cls2 kwargs2 key2 st st' backend1 backend2 :
  reachable st ->
  resolve symmetry1 block_backend1 symmetry_backend1 = Ok (cls1, kwargs1, key1) ->
  resolve symmetry2 block_backend2 symmetry_backend2 = Ok (cls2, kwargs2, key2) ->
  key1 <> key2 ->
  (get_backend symmetry1 block_backend1 symmetry_backend1 st).1 = Ok backend1 ->
  steps (get_backend symmetry1 block_backend1 symmetry_backend1 st).2 st' ->
  (get_backend symmetry2 block_backend2 symmetry_backend2 st').1 = Ok backend2 ->
  backend1 <> backend2.
Proof.
  intros Hreach Hres1 Hres2 Hne Hret1 Hsteps Hret2 Heq. subst backend2.
  pose proof (get_backend_cached _ _ _ _ _ _ _ _ Hres1 Hret1) as Hcached1.
  pose proof (get_backend_cached _ _ _ _ _ _ _ _ Hres2 Hret2) as Hcached2.
  set (st'' := (get_backend symmetry2 block_backend2 symmetry_backend2 st').2) in *.
  assert (Hstep : step st' st'') by constructor.
  pose proof (steps_keep_entry _ _ _ _ Hsteps Hcached1) as Hkept.
  apply (step_keeps_entry _ _ _ _ Hstep) in Hkept.
  assert (Hreach'' : reachable st'').
  { econstructor; [ | exact Hstep ]. eapply reachable_steps; [ | exact Hsteps ].
    econstructor; [ exact Hreach | constructor ]. }
  destruct (one_instance_per_key_reachable _ Hreach'') as [Hbound Huniq].
  destruct (Huniq backend1) as [key0 [_ Hone]]; [ eapply Hbound; eauto | ].
  apply Hne. rewrite (Hone key1 Hkept), (Hone key2 Hcached2). reflexivity.
Qed.

(** X17.  [get_default_backend()] returns, from any reachable state, the
    instance cached for ('no_symmetry', 'numpy'), an object of the class
    [NoSymmetryNumpyBackend] (given that [no_symmetry == no_symmetry] and
    that the constructor of that class returns). *)
Theorem get_default_backend_no_symmetry st :
  reachable st -> symmetry_eq no_symmetry no_symmetry = true ->
  is_ok (construct NoSymmetryNumpyBackend []) = true ->
  exists backend,
    (get_default_backend None st).1 = Ok backend /\
    objects (get_default_backend None st).2 !! backend = Some (NoSymmetryNumpyBackend, []) /\
    _instantiated_backends (get_default_backend None st).2
      !! ("no_symmetry", "numpy", []) = Some backend.
Proof.
  intros Hreach Hrefl Hctor. unfold get_default_backend.
  assert (Hres : resolve no_symmetry "numpy" None
                 = Ok (NoSymmetryNumpyBackend, [], ("no_symmetry", "numpy", []))).
  { unfold resolve, select_symmetry_backend. rewrite Hrefl. reflexivity. }
  destruct (get_backend_object _ _ _ _ _ _ st Hreach Hres Hctor) as [backend [Hret Hobj]].
  exists backend. split; [ exact Hret | ]. split; [ exact Hobj | ].
  eapply get_backend_cached; eauto.
Qed.

Lemma cache_counted_reachable st : reachable st -> cache_counted st.
Proof.
  induction 1 as [ | st st' _ [IHsize IHkeys] Hstep ].
  - split; [ reflexivity | ]. intros key backend Hkey. simpl in Hkey.
    rewrite lookup_empty in Hkey. discriminate.
  - destruct (step_cases _ _ Hstep)
      as [-> | (? & ? & ? & cls & kwargs & key & Hres & Hkey & ->)];
      [ split; assumption | ].
    split; simpl.
    + rewrite map_size_insert_None by exact Hkey. rewrite length_app, IHsize. simpl. lia.
    + intros key' backend. destruct (decide (key = key')) as [<- | Hne].
      * intros _. apply (resolve_entry _ _ _ _ _ _ Hres).
      * rewrite lookup_insert_ne by exact Hne. apply IHkeys.
Qed.

Lemma implemented_keys_NoDup : NoDup implemented_keys.
Proof.
  unfold implemented_keys.
  repeat (apply NoDup_cons; split;
          [ intros Hin; repeat (apply elem_of_cons in Hin as [Hin | Hin]; [ discriminate | ]);
            inversion Hin | ]).
  apply NoDup_nil. exact I.
Qed.

(** X18.  However many calls are made, at most eight backend objects are ever
    constructed, one for each cached key. *)
Theorem objects_bounded st :
  reachable st ->
  length (objects st) = size (_instantiated_backends st) /\ length (objects st) <= 8.
Proof.
  intros Hreach. destruct (cache_counted_reachable st Hreach) as [Hsize Hkeys].
  split; [ symmetry; exact Hsize | ].
  rewrite <- Hsize, <- length_map_to_list, <- (length_fmap fst).
  change 8 with (length implemented_keys).
  apply submseteq_length, NoDup_submseteq; [ apply NoDup_fst_map_to_list | ].
  intros key [[key' backend] [-> Hin]]%list_elem_of_fmap.
  apply elem_of_map_to_list in Hin. apply list_elem_of_In. eapply Hkeys. exact Hin.
Qed.

End MoreFacts.

(** *** On the symmetry groups *)

Lemma after_second_reachable : reachable after_second.
Proof.
  eapply reachable_step; [ | apply (step_call U1Symmetry "gpu" None) ].
  eapply reachable_step; [ apply reachable_initial | apply (step_call NoSymmetry "numpy" None) ].
Qed.

Lemma get_backend_error_keeps_state_witness :
  (get_backend SU2Symmetry "numpy" None after_second).2 = after_second.
Proof.
  apply (get_backend_error_keeps_state SU2Symmetry "numpy" None after_second
           (KeyError "nonabelian")).
  reflexivity.
Defined.

Lemma get_backend_succeeds_iff_witness :
  is_ok (get_backend U1Symmetry "cpu" None after_second).1 = true /\
  is_ok (get_backend U1Symmetry "jax" None after_second).1 = false.
Proof.
  split.
  - exact (get_backend_succeeds_iff U1Symmetry "cpu" None after_second
             (fun _ _ => eq_refl)).
  - exact (get_backend_succeeds_iff U1Symmetry "jax" None after_second
             (fun _ _ => eq_refl)).
Defined.

Lemma get_backend_instance_class_witness :
  exists backend,
    (get_backend U1Symmetry "gpu" None after_first).1 = Ok backend /\
    objects after_second !! backend = Some (AbelianTorchBackend, [("device", "cuda")]).
Proof.
  apply (get_backend_instance_class U1Symmetry "gpu" None AbelianTorchBackend
           [("device", "cuda")] ("abelian", "gpu", [("device", "cuda")]) after_first).
  - eapply reachable_step; [ apply reachable_initial | apply (step_call NoSymmetry "numpy" None) ].
  - reflexivity.
  - reflexivity.
Defined.

Lemma get_backend_distinct_instances_witness : 0 <> 1.
Proof.
  apply (get_backend_distinct_instances
           NoSymmetry "numpy" None NoSymmetryNumpyBackend [] ("no_symmetry", "numpy", [])
           NoSymmetry "cpu" None NoSymmetryNumpyBackend [] ("no_symmetry", "cpu", [])
           initial after_first 0 1).
  - apply reachable_initial.
  - reflexivity.
  - reflexivity.
  - discriminate.
  - reflexivity.
  - apply steps_refl.
  - reflexivity.
Defined.

Lemma get_default_backend_no_symmetry_witness :
  exists backend,
    (get_default_backend None after_second).1 = Ok backend /\
    objects (get_default_backend None after_second).2 !! backend
      = Some (NoSymmetryNumpyBackend, []) /\
    _instantiated_backends (get_default_backend None after_second).2
      !! ("no_symmetry", "numpy", []) = Some backend.
Proof.
  apply (get_default_backend_no_symmetry after_second).
  - exact after_second_reachable.
  - reflexivity.
  - reflexivity.
Defined.

Lemma objects_bounded_witness :
  length (objects after_second) = size (_instantiated_backends after_second) /\
  length (objects after_second) <= 8.
Proof. apply (objects_bounded after_second). exact after_second_reachable. Defined.

End BackendFactoryFacts.

(** ** Sparse operators *)

Module SparseFacts.

Import Sparse.

(** *** Wrappers *)

Section Wrappers.

Context {K V : Type} {ops : TensorOps K V}.

(** C3.  The shifted operator applies the original operator and adds
    [shift * vec]; in particular for the shift two. *)
Theorem shifted_matvec (original : Operator K V) (shift : K) (vec : V) :
  matvec (ShiftedTenpyLinearOperator original shift) vec
    = (matvec original vec + shift * vec)%T /\
  matvec (ShiftedTenpyLinearOperator original (k_add k_one k_one)) vec
    = (matvec original vec + k_add k_one k_one * vec)%T.
Proof. split; reflexivity. Qed.

Lemma max_unwrap_two : exists n, max_unwrap = S (S n).
Proof. exists (max_unwrap - 2). vm_compute. reflexivity. Qed.

Lemma unwrapped_base (depth : nat) (op : Operator K V) (recursive : bool) :
  is_wrapper op = false -> unwrapped (S depth) op recursive = Raise AttributeError.
Proof.
  unfold is_wrapper. simpl. destruct (original_operator op); [ discriminate | reflexivity ].
Qed.

Lemma innermost_not_wrapper (op : Operator K V) : is_wrapper (innermost op) = false.
Proof. induction op; simpl; auto. Qed.

Lemma follow_innermost (op : Operator K V) :
  follow (wrap_depth op) op = Some (innermost op).
Proof. induction op; simpl; auto. Qed.

Lemma unwrapped_wrapper (op parent : Operator K V) (depth : nat) :
  original_operator op = Some parent ->
  unwrapped (S depth) op true
    = unwrap_loop (fun p => unwrapped depth p true) max_unwrap parent.
Proof. intros Hop. cbn [unwrapped]. rewrite Hop. reflexivity. Qed.

(** One iteration when the parent is the innermost operator, two otherwise. *)
Lemma unwrap_loop_base (depth n : nat) (parent : Operator K V) :
  is_wrapper parent = false ->
  unwrap_loop (fun p => unwrapped (S depth) p true) (S n) parent = Ok parent.
Proof.
  intros Hbase. cbn [unwrap_loop]. rewrite unwrapped_base by exact Hbase. reflexivity.
Qed.

Lemma unwrapped_parent (parent : Operator K V) :
  forall (op : Operator K V) (depth : nat),
  original_operator op = Some parent -> wrap_depth parent < depth ->
  unwrapped (S depth) op true = Ok (innermost parent).
Proof.
  induction parent as [f | o IH more | o IH shift | o IH vecs penalty];
    intros op depth Hop Hdepth; rewrite (unwrapped_wrapper _ _ _ Hop);
    destruct max_unwrap_two as [n ->];
    (destruct depth as [ | depth']; [ simpl in Hdepth; lia | ]).
  - apply unwrap_loop_base. reflexivity.
  - simpl in Hdepth. cbn [unwrap_loop].
    rewrite (IH (SumTenpyLinearOperator o more) depth' eq_refl) by lia.
    apply unwrap_loop_base, innermost_not_wrapper.
  - simpl in Hdepth. cbn [unwrap_loop].
    rewrite (IH (ShiftedTenpyLinearOperator o shift) depth' eq_refl) by lia.
    apply unwrap_loop_base, innermost_not_wrapper.
  - simpl in Hdepth. cbn [unwrap_loop].
    rewrite (IH (ProjectedTenpyLinearOperator o vecs penalty) depth' eq_refl) by lia.
    apply unwrap_loop_base, innermost_not_wrapper.
Qed.

(** The loop gives up after [n] iterations in which [call] returned. *)
Lemma unwrap_loop_exhausted (call : Operator K V -> result (Operator K V)) (n : nat)
    (parent : Operator K V) :
  (forall p, is_ok (call p) = true) ->
  unwrap_loop call n parent
    = Raise (ValueError "maximum recursion depth for unwrapping reached").
Proof.
  intros Hcall. revert parent. induction n as [ | n IH ]; intros parent; simpl.
  - reflexivity.
  - specialize (Hcall parent). destruct (call parent); [ apply IH | discriminate ].
Qed.

(** With no more nested calls allowed than there are wrappers, the
    innermost call fails. *)
Lemma unwrapped_too_deep (depth : nat) :
  forall op : Operator K V, is_wrapper op = true -> depth <= wrap_depth op ->
  unwrapped depth op true = Raise RecursionError.
Proof.
  induction depth as [ | depth IH ]; intros op Hwrap Hdeep; [ reflexivity | ].
  destruct (original_operator op) as [o | ] eqn:Hparent;
    [ | unfold is_wrapper in Hwrap; rewrite Hparent in Hwrap; discriminate ].
  assert (Hd : wrap_depth op = S (wrap_depth o)).
  { destruct op; simpl in Hparent; try discriminate; injection Hparent as ->; reflexivity. }
  rewrite (unwrapped_wrapper _ _ _ Hparent).
  destruct max_unwrap_two as [n ->]. cbn [unwrap_loop].
  destruct (is_wrapper o) eqn:Ho.
  - rewrite (IH o Ho) by lia. reflexivity.
  - destruct o; try discriminate. simpl in Hd.
    assert (depth = 0) as -> by lia. reflexivity.
Qed.

(** C9 (what the code does).  [parent.unwrapped()] is itself the recursive
    unwrapping, so the calls nest once per wrapper and the loop ends within
    two iterations: [unwrapped] returns the innermost operator, which is not
    a wrapper and is reached by following [original_operator], when the
    interpreter allows more nested calls than there are wrappers, and raises
    RecursionError otherwise, whatever the bound of 10000 iterations. *)
Theorem unwrapped_recursion_depth (op : Operator K V) (depth : nat) :
  is_wrapper op = true ->
  unwrapped depth op true
    = (if Nat.ltb (wrap_depth op) depth then Ok (innermost op) else Raise RecursionError) /\
  follow (wrap_depth op) op = Some (innermost op) /\
  is_wrapper (innermost op) = false /\
  N.of_nat max_unwrap = 10000%N.
Proof.
  intros Hwrap.
  split; [ | split; [ apply follow_innermost | split; [ apply innermost_not_wrapper | ] ] ].
  - destruct (Nat.ltb_spec (wrap_depth op) depth) as [Hlt | Hge].
    + destruct depth as [ | depth ]; [ lia | ].
      destruct op as [f | o more | o shift | o vecs penalty]; [ discriminate | | | ];
        simpl in Hlt;
        cbn [innermost]; (apply (unwrapped_parent o); [ reflexivity | lia ]).
    + apply unwrapped_too_deep; assumption.
  - vm_compute. reflexivity.
Qed.

End Wrappers.

(** *** The projected operator, in exact arithmetic *)

Section Projection.

Context {K V : Type} {ops : TensorOps K V} {laws : TensorLaws K V}.

Add Ring scalars : (@k_ring K V ops laws).

Lemma t_zero_add (a : V) : (t_zero + a)%T = a.
Proof. rewrite t_add_comm. apply t_add_zero. Qed.

Lemma t_scale_t_zero (c : K) : (c * t_zero)%T = t_zero.
Proof.
  rewrite <- (t_scale_zero t_zero), <- t_scale_mul.
  replace (c ** k_zero)%T with k_zero by ring. reflexivity.
Qed.

Lemma t_sub_zero_scale (a o : V) : (a - k_zero * o)%T = a.
Proof. rewrite t_sub_add, t_scale_zero, t_scale_t_zero. apply t_add_zero. Qed.

Lemma t_sub_one_scale (a : V) : (a - k_one * a)%T = t_zero.
Proof.
  rewrite t_sub_add, t_scale_one.
  rewrite <- (t_scale_one a) at 1. rewrite <- t_scale_add_l.
  replace (k_add k_one (k_opp k_one)) with k_zero by ring.
  apply t_scale_zero.
Qed.

Lemma t_inner_zero (o : V) : t_inner o t_zero = k_zero.
Proof. rewrite <- (t_scale_zero o), t_inner_scale. ring. Qed.

Lemma t_inner_sub (o a b : V) :
  t_inner o (a - b)%T = k_sub (t_inner o a) (t_inner o b).
Proof. rewrite t_sub_add, t_inner_add, t_inner_scale. ring. Qed.

Lemma linear_zero (f : V -> V) : linear f -> f t_zero = t_zero.
Proof.
  intros [_ Hscale]. rewrite <- (t_scale_zero t_zero) at 1.
  rewrite Hscale. apply t_scale_zero.
Qed.

Lemma project_out_cons (o : V) (vecs : list V) (res : V) :
  project_out (o :: vecs) res = project_out vecs (remove o res).
Proof. reflexivity. Qed.

Lemma project_out_snoc (o : V) (vecs : list V) (res : V) :
  project_out (vecs ++ [o]) res = remove o (project_out vecs res).
Proof. unfold project_out. rewrite fold_left_app. reflexivity. Qed.

(** Removing two mutually orthogonal directions, in either order. *)
Lemma remove_comm (a b res : V) :
  t_inner a b = k_zero -> t_inner b a = k_zero ->
  remove a (remove b res) = remove b (remove a res).
Proof.
  intros Hab Hba. unfold remove.
  rewrite !t_inner_sub, !t_inner_scale, Hab, Hba.
  replace (k_sub (t_inner a res) (t_inner b res ** k_zero)%T) with (t_inner a res) by ring.
  replace (k_sub (t_inner b res) (t_inner a res ** k_zero)%T) with (t_inner b res) by ring.
  rewrite !t_sub_add, <- !t_add_assoc. f_equal. apply t_add_comm.
Qed.

Lemma project_out_remove (o : V) (vecs : list V) :
  (forall x, x ∈ vecs -> t_inner o x = k_zero /\ t_inner x o = k_zero) ->
  forall res, project_out vecs (remove o res) = remove o (project_out vecs res).
Proof.
  induction vecs as [ | x vecs IH ]; intros Horth res; [ reflexivity | ].
  rewrite !project_out_cons.
  destruct (Horth x) as [Hox Hxo]; [ left | ].
  rewrite (remove_comm x o res Hxo Hox).
  apply IH. intros y Hy. apply Horth. right. exact Hy.
Qed.

Lemma orthonormal_cons (o : V) (vecs : list V) :
  orthonormal (o :: vecs) ->
  orthonormal vecs /\
  forall x, x ∈ vecs -> t_inner o x = k_zero /\ t_inner x o = k_zero.
Proof.
  intros Hon. split.
  - intros i j oi oj Hi Hj. apply (Hon (S i) (S j) oi oj Hi Hj).
  - intros x [j Hj]%list_elem_of_lookup. split.
    + apply (Hon 0 (S j) o x eq_refl Hj).
    + apply (Hon (S j) 0 x o Hj eq_refl).
Qed.

(** The second loop gives the same tensor in either direction. *)
Lemma project_out_rev (vecs : list V) :
  orthonormal vecs -> forall res, project_out (rev vecs) res = project_out vecs res.
Proof.
  induction vecs as [ | o vecs IH ]; intros Hon res; [ reflexivity | ].
  apply orthonormal_cons in Hon as [Hon Horth].
  simpl rev. rewrite project_out_snoc, project_out_cons, (IH Hon).
  symmetry. apply project_out_remove. exact Horth.
Qed.


(** [matvec] for a single stored vector [o]. *)
Lemma projected_matvec_single (original : Operator K V) (o : V) (penalty : K) (vec : V) :
  matvec (ProjectedTenpyLinearOperator original [o] (Some penalty)) vec
    = (remove o (matvec original (remove o vec)) + (penalty ** t_inner o vec) * o)%T.
Proof. reflexivity. Qed.

(** [instantiate] runs [__init__] or raises. *)
Lemma instantiate_Ok {T : Type} (cls : PyClass) (init : result T) (x : T) :
  instantiate cls init = Ok x -> init = Ok x.
Proof. unfold instantiate. destruct (abstractmethods cls); [ auto | discriminate ]. Qed.

(** C2 (as the code has it).  A projected operator constructed with the
    single unit vector [o], which Gram-Schmidt leaves as it is, and a
    penalty sends [o] to [penalty * o], and a vector [v] orthogonal to [o]
    to [H v] with its component along [o] removed; that is [H v] exactly
    when [H v] is orthogonal to [o] as well. *)
Theorem projected_single_vector (cls : PyClass) (gram_schmidt : list V -> list V)
    (original projected : Operator K V) (o : V) (penalty : K) (v : V) :
  ProjectedTenpyLinearOperator_new cls gram_schmidt original [o] (Some penalty)
    = Ok projected ->
  linear (matvec original) ->
  gram_schmidt [o] = [o] ->
  t_inner o o = k_one ->
  t_inner o v = k_zero ->
  matvec projected o = (penalty * o)%T /\
  matvec projected v
    = (matvec original v - t_inner o (matvec original v) * o)%T /\
  (matvec projected v = matvec original v <-> t_inner o (matvec original v) = k_zero).
Proof.
  intros Hnew Hlin Hgs Hunit Horth.
  apply instantiate_Ok in Hnew. injection Hnew as <-. rewrite Hgs.
  rewrite !projected_matvec_single.
  assert (Hv : matvec (ProjectedTenpyLinearOperator original [o] (Some penalty)) v
               = (matvec original v - t_inner o (matvec original v) * o)%T).
  { rewrite projected_matvec_single. unfold remove at 2. rewrite Horth, t_sub_zero_scale.
    replace (penalty ** k_zero)%T with k_zero by ring.
    rewrite t_scale_zero, t_add_zero. reflexivity. }
  rewrite projected_matvec_single in Hv.
  split; [ | split; [ exact Hv | ] ].
  - unfold remove at 2. rewrite Hunit, t_sub_one_scale, (linear_zero _ Hlin).
    unfold remove. rewrite t_inner_zero, t_sub_zero_scale, t_zero_add.
    replace (penalty ** k_one)%T with penalty by ring. reflexivity.
  - rewrite Hv. split.
    + intros Hsame. apply (f_equal (t_inner o)) in Hsame.
      rewrite t_inner_sub, t_inner_scale, Hunit in Hsame.
      rewrite <- Hsame. ring.
    + intros Himage. rewrite Himage. apply t_sub_zero_scale.
Qed.

End Projection.

(** The laws hold for the tensors with two integer components. *)
Lemma plane_laws : TensorLaws Z (Z * Z).
Proof.
  split; try exact InitialRing.Zth;
    repeat (let a := fresh in intros a; try destruct a as [? ?]);
    unfold t_add, t_sub, t_scale, t_inner, t_zero, k_add, k_mul, k_opp, k_one, k_zero;
    simpl; first [ ring | f_equal; ring ].
Qed.


(** Python's default limit of 1000 nested calls is reached on a chain of
    3000 wrappers; three wrappers are unwrapped within four calls. *)
Lemma unwrapped_recursion_depth_witness :
  unwrapped 1000 (shifted_chain 3000) true = Raise RecursionError /\
  unwrapped 4 (shifted_chain 3) true = Ok swap.
Proof.
  split.
  - exact (proj1 (unwrapped_recursion_depth (shifted_chain 3000) 1000 eq_refl)).
  - exact (proj1 (unwrapped_recursion_depth (shifted_chain 3) 4 eq_refl)).
Defined.

Lemma swap_linear : linear (matvec swap).
Proof. split; intros; simpl; unfold t_add, t_scale; simpl; reflexivity. Qed.

Lemma stretch_linear : linear (matvec stretch).
Proof. split; intros; simpl; unfold t_add, t_scale; simpl; f_equal; ring. Qed.

Lemma e1_e2_orthonormal : orthonormal [e1; e2].
Proof.
  intros [ | [ | i ] ] [ | [ | j ] ] oi oj Hi Hj; simpl in Hi, Hj;
    try discriminate; injection Hi as <-; injection Hj as <-; reflexivity.
Qed.


(** The class as the module has it cannot be instantiated; a subclass that
    supplies [to_matrix] can. *)
Lemma ProjectedTenpyLinearOperator_new_TypeError :
  ProjectedTenpyLinearOperator_new ProjectedTenpyLinearOperator_class (fun vecs => vecs)
    swap [e1] (Some 5%Z) = Raise TypeError.
Proof. reflexivity. Qed.

(** C2, as stated, fails: [e2] is orthogonal to the unit vector [e1], the
    swap sends it to [e1], and the projected swap sends it to zero. *)
Lemma projected_changes_complement :
  let projected := ProjectedTenpyLinearOperator swap [e1] (Some 5%Z) in
  ProjectedTenpyLinearOperator_new (with_to_matrix ProjectedTenpyLinearOperator_class)
    (fun vecs => vecs) swap [e1] (Some 5%Z) = Ok projected /\
  linear (matvec swap) /\
  t_inner e1 e1 = 1%Z /\
  t_inner e1 e2 = 0%Z /\
  matvec swap e2 = (1, 0)%Z /\
  matvec projected e2 = (0, 0)%Z /\
  matvec projected e2 <> matvec swap e2.
Proof.
  split; [ reflexivity | ].
  split; [ exact swap_linear | ].
  repeat (split; [ reflexivity | ]).
  vm_compute. discriminate.
Qed.

Lemma projected_single_vector_witness :
  let projected := ProjectedTenpyLinearOperator stretch [e1] (Some 5%Z) in
  matvec projected e1 = (5%Z * e1)%T /\ matvec projected e2 = matvec stretch e2.
Proof.
  destruct (projected_single_vector (laws := plane_laws)
              (with_to_matrix ProjectedTenpyLinearOperator_class)
              (fun vecs => vecs) stretch
              (ProjectedTenpyLinearOperator stretch [e1] (Some 5%Z)) e1 5%Z e2)
    as [Ho [_ Hv]].
  - reflexivity.
  - exact stretch_linear.
  - reflexivity.
  - reflexivity.
  - reflexivity.
  - split; [ exact Ho | apply Hv; reflexivity ].
Defined.


(** There the second loop matters, in either order. *)
Example projected_matvec_second_loop :
  matvec (ProjectedTenpyLinearOperator mix [u1; u2] (Some 7%Z)) (3, 4, 5)%Z = (21, 28, 5)%Z /\
  projected_matvec [] (matvec mix) [u1; u2] (Some 7%Z) (3, 4, 5)%Z = (26, 38, 5)%Z /\
  projected_matvec [u1] (matvec mix) [u1; u2] (Some 7%Z) (3, 4, 5)%Z = (21, 38, 5)%Z.
Proof. repeat split; reflexivity. Qed.

(** Without orthogonality the direction of the second loop shows. *)
Example projected_matvec_order_matters :
  projected_matvec [e1; (1, 1)%Z] (matvec swap) [e1; (1, 1)%Z] None (0, 1)%Z
    <> matvec (ProjectedTenpyLinearOperator swap [e1; (1, 1)%Z] None) (0, 1)%Z.
Proof. vm_compute. discriminate. Qed.

(** *** [TensorLinearOperator] *)

Section TensorLinearOperatorFacts.

Context {Leg Dtype : Type}.
Variable can_contract_with : Leg -> Leg -> bool.
Variable get_leg_idx : Tensor (Leg := Leg) (Dtype := Dtype) -> Z + string -> result Z.

Lemma init_too_many_legs (tensor : Tensor) (which_leg : Z + string) :
  2 < num_legs tensor ->
  TensorLinearOperator_init can_contract_with get_leg_idx tensor which_leg
    = Raise (ValueError "Expected a two-leg tensor").
Proof.
  intros Hlegs. unfold TensorLinearOperator_init.
  apply Nat.ltb_lt in Hlegs. rewrite Hlegs. reflexivity.
Qed.

Lemma init_not_contractible (tensor : Tensor) (which_leg : Z + string) (leg0 leg1 : Leg) :
  legs tensor = [leg0; leg1] -> can_contract_with leg0 leg1 = false ->
  TensorLinearOperator_init can_contract_with get_leg_idx tensor which_leg
    = Raise (ValueError "Expected contractible legs").
Proof.
  intros Hlegs Hcontract. unfold TensorLinearOperator_init, num_legs.
  rewrite Hlegs. simpl. rewrite Hcontract. reflexivity.
Qed.

(** A class without abstract methods is instantiated, and [__init__] runs. *)
Lemma instantiate_concrete {T : Type} (cls : PyClass) (init : result T) :
  abstractmethods cls = [] -> instantiate cls init = init.
Proof. unfold instantiate. intros ->. reflexivity. Qed.

(** The two guards at the head of [__init__] refuse a tensor with more than
    two legs, and one whose two legs cannot be contracted with each other,
    with ValueError: this is what a subclass that supplies [to_matrix]
    shows on construction. *)
Lemma TensorLinearOperator_new_rejects (cls : PyClass) (tensor : Tensor)
    (which_leg : Z + string) :
  abstractmethods cls = [] ->
  2 < num_legs tensor \/
    (exists leg0 leg1, legs tensor = [leg0; leg1] /\ can_contract_with leg0 leg1 = false) ->
  TensorLinearOperator_new can_contract_with get_leg_idx cls tensor which_leg
    = Raise (ValueError (if Nat.ltb 2 (num_legs tensor) then "Expected a two-leg tensor"
                         else "Expected contractible legs")).
Proof.
  intros Hcls Hbad. unfold TensorLinearOperator_new. rewrite (instantiate_concrete _ _ Hcls).
  destruct Hbad as [Hlegs | [leg0 [leg1 [Hlegs Hcontract]]]].
  - rewrite (init_too_many_legs _ _ Hlegs).
    apply Nat.ltb_lt in Hlegs. rewrite Hlegs. reflexivity.
  - rewrite (init_not_contractible _ _ _ _ Hlegs Hcontract).
    unfold num_legs. rewrite Hlegs. reflexivity.
Qed.

(** C10 (what the code does).  [TensorLinearOperator] inherits the abstract
    method [to_matrix] and does not define it, so the class cannot be
    instantiated: for every tensor, also one with more than two legs or
    with legs that do not contract, the constructor call raises TypeError
    before [__init__] and its guards run, and never ValueError. *)
Theorem TensorLinearOperator_new_TypeError (tensor : Tensor) (which_leg : Z + string) :
  abstractmethods TensorLinearOperator_class = ["to_matrix"] /\
  TensorLinearOperator_new can_contract_with get_leg_idx TensorLinearOperator_class
    tensor which_leg = Raise TypeError /\
  forall msg,
    TensorLinearOperator_new can_contract_with get_leg_idx TensorLinearOperator_class
      tensor which_leg <> Raise (ValueError msg).
Proof.
  split; [ reflexivity | ]. split; [ reflexivity | ].
  intros msg. unfold TensorLinearOperator_new. cbv [instantiate]. simpl. discriminate.
Qed.

End TensorLinearOperatorFacts.

Lemma TensorLinearOperator_init_accepts :
  is_ok (TensorLinearOperator_init flag_contract leg_idx dual_legs (inl (-1)%Z)) = true.
Proof. reflexivity. Qed.

(** C10 on the inputs of the claim: three legs, and two legs that do not
    contract. *)
Lemma TensorLinearOperator_new_three_legs :
  TensorLinearOperator_new flag_contract leg_idx TensorLinearOperator_class
    three_legs (inl (-1)%Z) = Raise TypeError /\
  TensorLinearOperator_new flag_contract leg_idx TensorLinearOperator_class
    same_legs (inl (-1)%Z) = Raise TypeError /\
  TensorLinearOperator_new flag_contract leg_idx (with_to_matrix TensorLinearOperator_class)
    three_legs (inl (-1)%Z) = Raise (ValueError "Expected a two-leg tensor") /\
  TensorLinearOperator_new flag_contract leg_idx (with_to_matrix TensorLinearOperator_class)
    same_legs (inl (-1)%Z) = Raise (ValueError "Expected contractible legs").
Proof. repeat split; reflexivity. Qed.

(** *** The projected operator in closed form *)

Section ProjectionForm.

Context {K V : Type} {ops : TensorOps K V} {laws : TensorLaws K V}.

Add Ring scalars_form : (@k_ring K V ops laws).

Lemma t_add_opp (a : V) : (a + k_opp k_one * a)%T = t_zero.
Proof.
  rewrite <- (t_scale_one a) at 1. rewrite <- t_scale_add_l.
  replace (k_add k_one (k_opp k_one)) with k_zero by ring. apply t_scale_zero.
Qed.

Lemma t_sub_self (a : V) : (a - a)%T = t_zero.
Proof. rewrite t_sub_add. apply t_add_opp. Qed.

Lemma t_sub_zero (a : V) : (a - t_zero)%T = a.
Proof. rewrite t_sub_add, t_scale_t_zero. apply t_add_zero. Qed.

Lemma t_add_sub (a b : V) : ((a + b) - b)%T = a.
Proof. rewrite t_sub_add, <- t_add_assoc, t_add_opp. apply t_add_zero. Qed.

Lemma t_add_cancel_r (a b c : V) : (a + c = b + c)%T -> a = b.
Proof.
  intros Heq. rewrite <- (t_add_sub a c), <- (t_add_sub b c), Heq. reflexivity.
Qed.

Lemma t_add_interchange (a b c d : V) : ((a + b) + (c + d) = (a + c) + (b + d))%T.
Proof.
  rewrite <- !t_add_assoc. f_equal.
  rewrite !t_add_assoc. f_equal. apply t_add_comm.
Qed.

Lemma t_scale_sub (c : K) (a b : V) : (c * (a - b) = c * a - c * b)%T.
Proof.
  rewrite !t_sub_add, t_scale_add_r, <- !t_scale_mul. f_equal. f_equal. ring.
Qed.

Lemma t_sub_add_sub (a b c : V) : ((a - b) + (b - c) = a - c)%T.
Proof.
  rewrite !t_sub_add, <- (t_add_assoc a). f_equal.
  rewrite t_add_assoc, (t_add_comm _ b), t_add_opp. apply t_zero_add.
Qed.

Lemma t_sub_sub_cancel (a b : V) : (a - (a - b))%T = b.
Proof.
  apply (t_add_cancel_r _ _ (a - b)%T).
  rewrite (t_sub_add a (a - b)%T), <- t_add_assoc.
  rewrite (t_add_comm (k_opp k_one * _)%T), t_add_opp, t_add_zero.
  rewrite t_add_comm, t_sub_add, <- t_add_assoc.
  rewrite (t_add_comm (k_opp k_one * _)%T), t_add_opp, t_add_zero. reflexivity.
Qed.

(** The first loop: its result is that of [project_out], and the
    coefficients are collected in order. *)
Lemma project_keep_acc (vecs : list V) :
  forall (res : V) (cs : list K),
  fold_left
    (fun '(res, coefficients) o =>
       let c := t_inner o res in ((res - c * o)%T, coefficients ++ [c]))
    vecs (res, cs)
  = (project_out vecs res, cs ++ (project_keep vecs res).2).
Proof.
  induction vecs as [ | o vecs IH ]; intros res cs.
  - simpl. rewrite app_nil_r. reflexivity.
  - unfold project_keep. cbn [fold_left]. rewrite !IH. cbn [app fst snd].
    rewrite <- app_assoc. reflexivity.
Qed.

Lemma project_keep_cons (o : V) (vecs : list V) (vec : V) :
  project_keep (o :: vecs) vec
  = (project_out vecs (remove o vec), t_inner o vec :: (project_keep vecs (remove o vec)).2).
Proof. unfold project_keep. cbn [fold_left]. rewrite project_keep_acc. reflexivity. Qed.

Lemma project_keep_fst (vecs : list V) (vec : V) :
  (project_keep vecs vec).1 = project_out vecs vec.
Proof. unfold project_keep. rewrite project_keep_acc. reflexivity. Qed.

(** The penalty loop adds [penalty] times what the first loop removed. *)
Lemma add_penalty_project_keep (penalty : K) (vecs : list V) :
  forall (vec res : V),
  add_penalty penalty (project_keep vecs vec).2 vecs res
  = (res + penalty * (vec - project_out vecs vec))%T.
Proof.
  induction vecs as [ | o vecs IH ]; intros vec res.
  - cbn. rewrite t_sub_self, t_scale_t_zero, t_add_zero. reflexivity.
  - rewrite project_keep_cons. cbn [snd]. unfold add_penalty. cbn [combine fold_left].
    fold (add_penalty penalty (project_keep vecs (remove o vec)).2 vecs
            (res + (penalty ** t_inner o vec) * o)%T).
    rewrite IH. rewrite project_out_cons.
    rewrite <- t_add_assoc. f_equal.
    rewrite t_scale_mul, <- t_scale_add_r. f_equal.
    rewrite <- (t_sub_add_sub vec (remove o vec)). f_equal.
    unfold remove. symmetry. apply t_sub_sub_cancel.
Qed.

(** The result of [matvec] with a penalty, in closed form. *)
Lemma projected_matvec_closed_form (original : Operator K V) (ortho_vecs : list V)
    (penalty : K) (vec : V) :
  matvec (ProjectedTenpyLinearOperator original ortho_vecs (Some penalty)) vec
  = (project_out (rev ortho_vecs) (matvec original (project_out ortho_vecs vec))
     + penalty * (vec - project_out ortho_vecs vec))%T.
Proof.
  cbn [matvec]. unfold projected_matvec.
  destruct (project_keep ortho_vecs vec) as [res cs] eqn:Hkeep.
  pose proof (project_keep_fst ortho_vecs vec) as Hres.
  pose proof (add_penalty_project_keep penalty ortho_vecs vec) as Hpen.
  rewrite Hkeep in Hres, Hpen. simpl in Hres, Hpen. subst res.
  apply Hpen.
Qed.

(** X1.  With a penalty, the projected operator computes the docstring's
    [P H P + penalty * (1 - P)]: the first loop is [P], the second loop (over
    the reversed list) is the outer projection, and the penalty loop adds
    [penalty] times what the first loop removed; for any stored vectors. *)
Theorem projected_matvec_formula (original : Operator K V) (ortho_vecs : list V)
    (penalty : K) (vec : V) :
  matvec (ProjectedTenpyLinearOperator original ortho_vecs (Some penalty)) vec
  = (project_out (rev ortho_vecs) (matvec original (project_out ortho_vecs vec))
     + penalty * (vec - project_out ortho_vecs vec))%T.
Proof. apply projected_matvec_closed_form. Qed.

Lemma remove_zero (o : V) : remove o t_zero = t_zero.
Proof. unfold remove. rewrite t_inner_zero. apply t_sub_zero_scale. Qed.

Lemma remove_orthogonal (o x : V) : t_inner o x = k_zero -> remove o x = x.
Proof. intros Hox. unfold remove. rewrite Hox. apply t_sub_zero_scale. Qed.

Lemma remove_unit (o : V) : t_inner o o = k_one -> remove o o = t_zero.
Proof. intros Hunit. unfold remove. rewrite Hunit. apply t_sub_one_scale. Qed.

Lemma project_out_zero (vecs : list V) : project_out vecs t_zero = t_zero.
Proof.
  induction vecs as [ | o vecs IH ]; [ reflexivity | ].
  rewrite project_out_cons, remove_zero. exact IH.
Qed.

Lemma project_out_orthogonal (vecs : list V) (vec : V) :
  (forall o, o ∈ vecs -> t_inner o vec = k_zero) -> project_out vecs vec = vec.
Proof.
  induction vecs as [ | o vecs IH ]; intros Horth; [ reflexivity | ].
  rewrite project_out_cons, remove_orthogonal by (apply Horth; left).
  apply IH. intros o' Ho'. apply Horth. right. exact Ho'.
Qed.

Lemma project_out_member (vecs : list V) :
  orthonormal vecs -> forall i o, vecs !! i = Some o -> project_out vecs o = t_zero.
Proof.
  induction vecs as [ | a vecs IH ]; intros Hon i o Hi; [ discriminate | ].
  rewrite project_out_cons. destruct i as [ | i ]; simpl in Hi.
  - injection Hi as ->. rewrite remove_unit by (apply (Hon 0 0 o o); reflexivity).
    apply project_out_zero.
  - rewrite remove_orthogonal by (apply (Hon 0 (S i) a o eq_refl Hi)).
    apply orthonormal_cons in Hon as [Hon _]. apply (IH Hon i o Hi).
Qed.



(** X2.  For orthonormal stored vectors and a linear original operator,
    every stored vector is an eigenvector with eigenvalue [penalty]. *)
Theorem projected_eigenvector (original : Operator K V) (ortho_vecs : list V)
    (penalty : K) (o : V) :
  orthonormal ortho_vecs -> linear (matvec original) -> o ∈ ortho_vecs ->
  matvec (ProjectedTenpyLinearOperator original ortho_vecs (Some penalty)) o
  = (penalty * o)%T.
Proof.
  intros Hon Hlin [i Hi]%list_elem_of_lookup.
  rewrite projected_matvec_closed_form, (project_out_member _ Hon i o Hi).
  rewrite (linear_zero _ Hlin), project_out_zero, t_sub_zero. apply t_zero_add.
Qed.


(** X4.  On a vector orthogonal to every stored vector the penalty adds
    nothing: the result is the original operator's, with the stored
    vectors projected out in reversed order. *)
Theorem projected_matvec_complement (original : Operator K V) (ortho_vecs : list V)
    (penalty : K) (vec : V) :
  (forall o, o ∈ ortho_vecs -> t_inner o vec = k_zero) ->
  matvec (ProjectedTenpyLinearOperator original ortho_vecs (Some penalty)) vec
  = project_out (rev ortho_vecs) (matvec original vec).
Proof.
  intros Horth. rewrite projected_matvec_closed_form, (project_out_orthogonal _ _ Horth).
  rewrite t_sub_self, t_scale_t_zero. apply t_add_zero.
Qed.


Lemma sum_fold_Permutation (vec : V) (more more' : list (Operator K V)) :
  Permutation more more' ->
  forall start : V,
  fold_left (fun acc op => (acc + matvec op vec)%T) more start
  = fold_left (fun acc op => (acc + matvec op vec)%T) more' start.
Proof.
  induction 1 as [ | x l l' _ IH | x y l | l l' l'' _ IH1 _ IH2 ]; intros start; simpl.
  - reflexivity.
  - apply IH.
  - f_equal. rewrite <- !t_add_assoc. f_equal. apply t_add_comm.
  - rewrite IH1. apply IH2.
Qed.

(** X7.  [SumTenpyLinearOperator.matvec] does not depend on the order of
    [more_operators]. *)
Theorem sum_matvec_Permutation (original : Operator K V)
    (more more' : list (Operator K V)) (vec : V) :
  Permutation more more' ->
  matvec (SumTenpyLinearOperator original more) vec
  = matvec (SumTenpyLinearOperator original more') vec.
Proof. intros Hperm. cbn [matvec]. apply sum_fold_Permutation. exact Hperm. Qed.

End ProjectionForm.

(** *** Linearity *)

Section Linearity.

Context {K V : Type} {ops : TensorOps K V} {laws : TensorLaws K V}.

Add Ring scalars_linear : (@k_ring K V ops laws).

Lemma linear_compose (f g : V -> V) : linear f -> linear g -> linear (fun v => f (g v)).
Proof.
  intros [Hfa Hfs] [Hga Hgs]. split; intros.
  - rewrite Hga, Hfa. reflexivity.
  - rewrite Hgs, Hfs. reflexivity.
Qed.

Lemma linear_add (f g : V -> V) : linear f -> linear g -> linear (fun v => (f v + g v)%T).
Proof.
  intros [Hfa Hfs] [Hga Hgs]. split; intros.
  - rewrite Hfa, Hga. apply t_add_interchange.
  - rewrite Hfs, Hgs, t_scale_add_r. reflexivity.
Qed.

Lemma linear_scale (s : K) : linear (fun v : V => (s * v)%T).
Proof.
  split; intros.
  - apply t_scale_add_r.
  - rewrite <- !t_scale_mul. f_equal. ring.
Qed.

Lemma linear_id : linear (fun v : V => v).
Proof. split; reflexivity. Qed.

Lemma linear_ext (f g : V -> V) : (forall v, f v = g v) -> linear f -> linear g.
Proof.
  intros Hext [Hfa Hfs]. split; intros; rewrite <- !Hext; [ apply Hfa | apply Hfs ].
Qed.

Lemma remove_linear (o : V) : linear (remove o).
Proof.
  apply (linear_ext (fun v => (v + (fun w => k_opp k_one * (t_inner o w * o))%T v)%T)).
  - intros v. unfold remove. rewrite t_sub_add. reflexivity.
  - apply linear_add; [ apply linear_id | ].
    split; intros.
    + rewrite t_inner_add, t_scale_add_l. apply t_scale_add_r.
    + rewrite t_inner_scale, <- !t_scale_mul. f_equal. ring.
Qed.

Lemma project_out_linear (vecs : list V) : linear (project_out vecs).
Proof.
  induction vecs as [ | o vecs IH ]; [ apply linear_id | ].
  apply (linear_ext (fun v => project_out vecs (remove o v))).
  - intros v. reflexivity.
  - apply linear_compose; [ exact IH | apply remove_linear ].
Qed.

Lemma sub_linear (f : V -> V) : linear f -> linear (fun v => (v - f v)%T).
Proof.
  intros Hf.
  apply (linear_ext (fun v => (v + (fun w => k_opp k_one * f w)%T v)%T)).
  - intros v. rewrite t_sub_add. reflexivity.
  - apply linear_add; [ apply linear_id | ].
    apply (linear_compose (fun w => (k_opp k_one * w)%T) f); [ apply linear_scale | exact Hf ].
Qed.

(** X5.  Every operator built by the wrappers (sum, shift, projection) from
    linear operators is linear. *)
Theorem matvec_linear : forall op : Operator K V, bases_linear op -> linear (matvec op).
Proof.
  fix IH 1. intros [f | o more | o s | o vecs penalty] Hbase; cbn [bases_linear] in Hbase.
  - exact Hbase.
  - destruct Hbase as [Ho Hmore]. pose proof (IH o Ho) as Hlin. clear Ho.
    apply (linear_ext (fun v =>
             fold_left (fun acc op => (acc + matvec op v)%T) more (matvec o v)));
      [ reflexivity | ].
    revert Hlin. generalize (matvec o). clear o.
    induction more as [ | x more IHmore ]; intros start Hstart; [ exact Hstart | ].
    destruct Hmore as [Hx Hmore]. cbn [fold_left].
    apply (IHmore Hmore (fun v => (start v + matvec x v)%T)).
    apply linear_add; [ exact Hstart | apply IH; exact Hx ].
  - apply (linear_ext (fun v => (matvec o v + s * v)%T)); [ reflexivity | ].
    apply linear_add; [ apply IH; exact Hbase | apply linear_scale ].
  - pose proof (IH o Hbase) as Hlin. destruct penalty as [penalty | ].
    + apply (linear_ext (fun v =>
               (project_out (rev vecs) (matvec o (project_out vecs v))
                + penalty * (v - project_out vecs v))%T)).
      * intros v. symmetry. apply projected_matvec_closed_form.
      * apply linear_add.
        -- apply (linear_compose (project_out (rev vecs))); [ apply project_out_linear | ].
           apply (linear_compose (matvec o)); [ exact Hlin | apply project_out_linear ].
        -- apply (linear_compose (fun w => (penalty * w)%T)); [ apply linear_scale | ].
           apply sub_linear, project_out_linear.
    + apply (linear_ext (fun v => project_out (rev vecs) (matvec o (project_out vecs v)))).
      * intros v. cbn [matvec]. unfold projected_matvec.
        pose proof (project_keep_fst vecs v) as Hres.
        destruct (project_keep vecs v) as [res cs]. simpl in Hres. subst res. reflexivity.
      * apply (linear_compose (project_out (rev vecs))); [ apply project_out_linear | ].
        apply (linear_compose (matvec o)); [ exact Hlin | apply project_out_linear ].
Qed.

End Linearity.

(** *** Adjoints *)

Section AdjointFacts.

Context {K V : Type} {ops : TensorOps K V} {laws : TensorLaws K V}.
Context {k_conj : K -> K} {hermitian : HermitianLaws K V k_conj}.

Add Ring scalars_adjoint : (@k_ring K V ops laws).

Lemma t_inner_add_l (a b y : V) :
  t_inner (a + b)%T y = k_add (t_inner a y) (t_inner b y).
Proof.
  rewrite (t_inner_conj _ y), t_inner_add, k_conj_add, <- !t_inner_conj. reflexivity.
Qed.

Lemma t_inner_scale_l (c : K) (a y : V) :
  t_inner (c * a)%T y = (k_conj c ** t_inner a y)%T.
Proof.
  rewrite (t_inner_conj _ y), t_inner_scale, k_conj_mul, <- t_inner_conj. reflexivity.
Qed.

Lemma t_inner_sub_l (a b y : V) :
  t_inner (a - b)%T y = k_sub (t_inner a y) (t_inner b y).
Proof.
  rewrite t_sub_add, t_inner_add_l, t_inner_scale_l, k_conj_opp, k_conj_one. ring.
Qed.

Lemma remove_self_adjoint (o : V) : is_adjoint (remove o) (remove o).
Proof.
  intros x y. unfold remove.
  rewrite t_inner_sub, t_inner_scale, t_inner_sub_l, t_inner_scale_l.
  rewrite <- (t_inner_conj x o). ring.
Qed.

(** The two loops of the projection are adjoint to each other. *)
Lemma project_out_adjoint (vecs : list V) :
  is_adjoint (project_out vecs) (project_out (rev vecs)).
Proof.
  induction vecs as [ | o vecs IH ]; intros x y; [ reflexivity | ].
  simpl rev. rewrite project_out_cons, project_out_snoc, IH.
  apply remove_self_adjoint.
Qed.

Lemma project_out_rev_adjoint (vecs : list V) :
  is_adjoint (project_out (rev vecs)) (project_out vecs).
Proof.
  pose proof (project_out_adjoint (rev vecs)) as Hadj.
  rewrite rev_involutive in Hadj. exact Hadj.
Qed.

Lemma is_adjoint_add (f f' g g' : V -> V) :
  is_adjoint f f' -> is_adjoint g g' ->
  is_adjoint (fun v => (f v + g v)%T) (fun v => (f' v + g' v)%T).
Proof.
  intros Hf Hg x y. rewrite t_inner_add, t_inner_add_l, Hf, Hg. reflexivity.
Qed.

Lemma sum_fold_adjoint (more more' : list (Operator K V)) :
  Forall2 (fun op op' => is_adjoint (matvec op) (matvec op')) more more' ->
  forall start start' : V -> V, is_adjoint start start' ->
  is_adjoint
    (fun v => fold_left (fun acc op => (acc + matvec op v)%T) more (start v))
    (fun v => fold_left (fun acc op => (acc + matvec op v)%T) more' (start' v)).
Proof.
  induction 1 as [ | op op' more more' Hop _ IH ]; intros start start' Hstart;
    [ exact Hstart | ].
  cbn [fold_left].
  apply (IH (fun v => (start v + matvec op v)%T) (fun v => (start' v + matvec op' v)%T)).
  apply is_adjoint_add; assumption.
Qed.

(** X8.  [matvec] is Hermitian, [<x, A y> = <A x, y>], for every tower of
    wrappers whose innermost operators are, whose shifts and penalties are
    real, and whose stored vectors are orthonormal where there is a penalty.
    For the projection without penalty nothing is asked of the stored
    vectors: the second loop runs in reversed order. *)
Theorem matvec_hermitian :
  forall op : Operator K V,
  hermitian_parts k_conj op -> is_adjoint (matvec op) (matvec op).
Proof.
  fix IH 1. intros [f | o more | o s | o vecs penalty] Hparts;
    cbn [hermitian_parts] in Hparts.
  - exact Hparts.
  - destruct Hparts as [Ho Hmore].
    pose proof (IH o Ho) as Hstart.
    assert (Hall : Forall2 (fun op op' => is_adjoint (matvec op) (matvec op')) more more).
    { clear Hstart Ho.
      induction more as [ | x more IHmore ]; [ constructor | ].
      destruct Hmore as [Hx Hmore].
      constructor; [ apply (IH x Hx) | apply (IHmore Hmore) ]. }
    exact (sum_fold_adjoint more more Hall (matvec o) (matvec o) Hstart).
  - destruct Hparts as [Ho Hs].
    pose proof (IH o Ho) as Hstart.
    intros x y. cbn [matvec].
    rewrite t_inner_add, t_inner_add_l, t_inner_scale, t_inner_scale_l, Hs, Hstart.
    reflexivity.
  - destruct Hparts as [Ho Hpen].
    pose proof (IH o Ho) as Hstart.
    assert (Hcore : forall x y,
              t_inner x (project_out (rev vecs) (matvec o (project_out vecs y)))
              = t_inner (project_out (rev vecs) (matvec o (project_out vecs x))) y).
    { intros x y.
      rewrite (project_out_rev_adjoint vecs), Hstart, (project_out_adjoint vecs).
      reflexivity. }
    intros x y. destruct penalty as [penalty | ].
    + destruct Hpen as [Hp Hon].
      rewrite !projected_matvec_closed_form.
      rewrite t_inner_add, t_inner_add_l, Hcore. f_equal.
      rewrite t_inner_scale, t_inner_scale_l, Hp. f_equal.
      rewrite t_inner_sub, t_inner_sub_l. f_equal.
      rewrite (project_out_adjoint vecs).
      rewrite (project_out_rev vecs) by exact Hon. reflexivity.
    + cbn [matvec]. unfold projected_matvec.
      pose proof (project_keep_fst vecs y) as Hy. pose proof (project_keep_fst vecs x) as Hx.
      destruct (project_keep vecs y) as [resy csy], (project_keep vecs x) as [resx csx].
      simpl in Hx, Hy. subst. apply Hcore.
Qed.

End AdjointFacts.

(** *** More on [unwrapped] *)

Section Unwrap.

Context {K V : Type} {ops : TensorOps K V}.

Lemma unwrapped_zero (op : Operator K V) (recursive : bool) :
  unwrapped 0 op recursive = Raise RecursionError.
Proof. reflexivity. Qed.

(** X10.  Whatever the allowed depth of calls, [unwrapped] gives the
    innermost operator or RecursionError: the loop never runs out, and
    ValueError is never raised. *)
Theorem unwrapped_never_ValueError (depth : nat) :
  forall op : Operator K V, is_wrapper op = true ->
  unwrapped depth op true = Ok (innermost op) \/
  unwrapped depth op true = Raise RecursionError.
Proof.
  induction depth as [ | depth IH ]; intros op Hwrap; [ right; reflexivity | ].
  destruct (original_operator op) as [parent | ] eqn:Hparent;
    [ | unfold is_wrapper in Hwrap; rewrite Hparent in Hwrap; discriminate ].
  assert (Hinner : innermost op = innermost parent).
  { destruct op; simpl in Hparent; try discriminate; injection Hparent as ->; reflexivity. }
  rewrite (unwrapped_wrapper _ _ _ Hparent), Hinner.
  destruct max_unwrap_two as [n ->]. cbn [unwrap_loop].
  destruct (is_wrapper parent) eqn:Hpw.
  - destruct (IH parent Hpw) as [-> | ->]; [ | right; reflexivity ].
    destruct depth as [ | depth ]; [ right; reflexivity | ].
    rewrite unwrapped_base by apply innermost_not_wrapper. left. reflexivity.
  - destruct depth as [ | depth ]; [ right; reflexivity | ].
    rewrite (unwrapped_base _ _ _ Hpw). left.
    destruct parent; try discriminate. reflexivity.
Qed.

End Unwrap.

(** *** More on [TensorLinearOperator.__init__] *)

Section Init.

Context {Leg Dtype : Type}.
Variable can_contract_with : Leg -> Leg -> bool.
Variable get_leg_idx : Tensor (Leg := Leg) (Dtype := Dtype) -> Z + string -> result Z.

(** X11.  Through a class that can be instantiated (a subclass that supplies
    [to_matrix] and inherits [__init__]), a tensor with fewer than two legs
    is refused with IndexError, raised by [tensor.legs[0]] or
    [tensor.legs[1]], not with ValueError. *)
Theorem init_too_few_legs (cls : PyClass) (tensor : Tensor) (which_leg : Z + string) :
  abstractmethods cls = [] ->
  num_legs tensor < 2 ->
  TensorLinearOperator_new can_contract_with get_leg_idx cls tensor which_leg
    = Raise IndexError.
Proof.
  intros Hcls. unfold TensorLinearOperator_new. rewrite (instantiate_concrete _ _ Hcls).
  unfold TensorLinearOperator_init, num_legs. intros Hlegs.
  destruct (legs tensor) as [ | leg0 [ | leg1 rest ] ]; simpl in *; try lia; reflexivity.
Qed.

(** X12.  Every operator that was constructed holds a tensor with exactly
    two legs that contract with each other; [other_leg] is the leg that
    [which_leg] is not, and the vector shape is that leg with its label. *)
Theorem init_constructed (tensor : Tensor) (which : Z + string) (op : TensorLinearOperator) :
  TensorLinearOperator_init can_contract_with get_leg_idx tensor which = Ok op ->
  Sparse.tensor op = tensor /\
  (exists leg0 leg1, legs tensor = [leg0; leg1] /\ can_contract_with leg0 leg1 = true) /\
  get_leg_idx tensor which = Ok (which_leg op) /\
  other_leg op = (1 - which_leg op)%Z /\
  (exists leg label,
     getitem (legs tensor) (other_leg op) = Ok leg /\
     getitem (labels tensor) (other_leg op) = Ok label /\
     vector_shape op = mk_Shape [leg] label) /\
  operator_dtype op = dtype tensor.
Proof.
  unfold TensorLinearOperator_init, num_legs.
  destruct (legs tensor) as [ | leg0 [ | leg1 [ | leg2 rest ] ] ] eqn:Hlegs; simpl;
    try discriminate.
  destruct (can_contract_with leg0 leg1) eqn:Hcontract; simpl; [ | discriminate ].
  destruct (get_leg_idx tensor which) as [i | e]; simpl; [ | discriminate ].
  destruct (getitem [leg0; leg1] (1 - i)) as [leg | e] eqn:Hleg; simpl; [ | discriminate ].
  destruct (getitem (labels tensor) (1 - i)) as [label | e] eqn:Hlabel; simpl;
    [ | discriminate ].
  intros [= <-]. simpl.
  repeat split; eauto. 
Qed.

End Init.

Section AdjointError.

Context {K V : Type} {ops : TensorOps K V}.
Variable k_conj : K -> K.
Variable gram_schmidt : list V -> list V.
Variable base_adjoint : (V -> V) -> result (Operator K V).

(** X9.  When the innermost operator has no adjoint, no wrapper around it
    has one: its error is what [adjoint()] raises. *)
Theorem adjoint_undefined (op : Operator K V) (e : exn) :
  adjoint k_conj gram_schmidt base_adjoint (innermost op) = Raise e ->
  adjoint k_conj gram_schmidt base_adjoint op = Raise e.
Proof.
  induction op as [f | o IH more | o IH shift | o IH vecs penalty]; intros Herr;
    cbn [innermost] in Herr; [ exact Herr | | | ];
    cbn [adjoint]; rewrite (IH Herr); reflexivity.
Qed.

(** The adjoints of the operators of a sum, taken in order: a list, or the
    first error. *)
Lemma adjoint_each_TypeError (more : list (Operator K V)) :
  Forall (fun x => is_ok (adjoint k_conj gram_schmidt base_adjoint x) = true \/
                   adjoint k_conj gram_schmidt base_adjoint x = Raise TypeError) more ->
  let each :=
    fix each (ops : list (Operator K V)) : result (list (Operator K V)) :=
      match ops with
      | [] => Ok []
      | op :: ops' =>
          op' ← adjoint k_conj gram_schmidt base_adjoint op; rest ← each ops'; Ok (op' :: rest)
      end in
  is_ok (each more) = true \/ each more = Raise TypeError.
Proof.
  intros Hall each. induction Hall as [ | x more Hx _ IH ]; [ left; reflexivity | ].
  cbn [each]. destruct Hx as [Hx | ->]; [ | right; reflexivity ].
  destruct (adjoint k_conj gram_schmidt base_adjoint x); [ | discriminate ].
  cbn. destruct IH as [IH | ->]; [ | right; reflexivity ].
  destruct (each more); [ left; reflexivity | discriminate ].
Qed.

Lemma adjoint_TypeError :
  forall op : Operator K V, bases_have_adjoint base_adjoint op ->
  if is_wrapper op then adjoint k_conj gram_schmidt base_adjoint op = Raise TypeError
  else is_ok (adjoint k_conj gram_schmidt base_adjoint op) = true.
Proof.
  fix IH 1. intros [f | o more | o s | o vecs penalty] Hbases;
    cbn [bases_have_adjoint] in Hbases; cbn [is_wrapper original_operator].
  - exact Hbases.
  - destruct Hbases as [Ho Hmore]. specialize (IH o Ho) as Hstart. cbn [adjoint].
    destruct (is_wrapper o); [ rewrite Hstart; reflexivity | ].
    destruct (adjoint k_conj gram_schmidt base_adjoint o) as [o' | e]; [ | discriminate ].
    cbn.
    assert (Hall : Forall (fun x =>
                     is_ok (adjoint k_conj gram_schmidt base_adjoint x) = true \/
                     adjoint k_conj gram_schmidt base_adjoint x = Raise TypeError) more).
    { clear Hstart Ho o'.
      induction more as [ | x more IHmore ]; [ constructor | ].
      destruct Hmore as [Hx Hmore]. constructor; [ | apply (IHmore Hmore) ].
      specialize (IH x Hx). destruct (is_wrapper x); [ right | left ]; exact IH. }
    destruct (adjoint_each_TypeError more Hall) as [Hok | Herr].
    + cbv zeta in Hok.
      match goal with
      | |- (?each more ≫= _) = _ => destruct (each more); [ reflexivity | discriminate ]
      end.
    + cbv zeta in Herr. rewrite Herr. reflexivity.
  - specialize (IH o Hbases). cbn [adjoint].
    destruct (is_wrapper o); [ rewrite IH; reflexivity | ].
    destruct (adjoint k_conj gram_schmidt base_adjoint o); [ reflexivity | discriminate ].
  - specialize (IH o Hbases). cbn [adjoint].
    destruct (is_wrapper o); [ rewrite IH; reflexivity | ].
    destruct (adjoint k_conj gram_schmidt base_adjoint o); [ reflexivity | discriminate ].
Qed.

(** X30.  [adjoint()] of a wrapper never returns an operator: the class it
    names for the result has the abstract method [to_matrix] left and cannot
    be instantiated.  When every innermost operator returns its adjoint the
    error is this TypeError. *)
Theorem adjoint_wrapper_TypeError (op : Operator K V) :
  is_wrapper op = true ->
  is_ok (adjoint k_conj gram_schmidt base_adjoint op) = false /\
  (bases_have_adjoint base_adjoint op ->
   adjoint k_conj gram_schmidt base_adjoint op = Raise TypeError).
Proof.
  intros Hwrap. split.
  - destruct op as [f | o more | o s | o vecs penalty]; [ discriminate | | | ];
      cbn [adjoint];
      (destruct (adjoint k_conj gram_schmidt base_adjoint o); [ cbn | reflexivity ]).
    + match goal with
      | |- is_ok (?each more ≫= _) = _ => destruct (each more); reflexivity
      end.
    + reflexivity.
    + reflexivity.
  - intros Hbases. pose proof (adjoint_TypeError op Hbases) as Hop.
    rewrite Hwrap in Hop. exact Hop.
Qed.

End AdjointError.

(** *** On the tensors with two integer components *)

Lemma plane_hermitian : HermitianLaws Z (Z * Z) (fun c => c).
Proof.
  split; try reflexivity.
  intros [x1 x2] [y1 y2]. unfold t_inner; simpl. ring.
Qed.

Lemma swap_symmetric : is_adjoint (matvec swap) (matvec swap).
Proof. intros [x1 x2] [y1 y2]. unfold t_inner; simpl. ring. Qed.

Lemma e1_orthonormal : orthonormal [e1].
Proof.
  intros [ | i ] [ | j ] oi oj Hi Hj; simpl in Hi, Hj; try discriminate.
  injection Hi as <-. injection Hj as <-. reflexivity.
Qed.

Lemma matvec_hermitian_witness :
  is_adjoint (matvec shifted_projected_swap) (matvec shifted_projected_swap).
Proof.
  apply (matvec_hermitian (laws := plane_laws) (hermitian := plane_hermitian)
           shifted_projected_swap).
  simpl. split; [ split; [ exact swap_symmetric | ] | reflexivity ].
  split; [ reflexivity | exact e1_orthonormal ].
Defined.

Lemma adjoint_wrapper_TypeError_witness :
  adjoint (fun c => c) (fun vecs => vecs) symmetric_adjoint shifted_projected_swap
    = Raise TypeError.
Proof.
  apply (adjoint_wrapper_TypeError (fun c => c) (fun vecs => vecs) symmetric_adjoint
           shifted_projected_swap eq_refl).
  reflexivity.
Defined.

Lemma adjoint_undefined_witness :
  adjoint (fun c => c) (fun vecs => vecs) no_adjoint shifted_projected_swap
    = Raise (NotImplementedError "No adjoint defined").
Proof.
  apply (adjoint_undefined (fun c => c) (fun vecs => vecs) no_adjoint shifted_projected_swap).
  reflexivity.
Defined.

Lemma projected_matvec_formula_witness :
  matvec (ProjectedTenpyLinearOperator swap [e1; e2] (Some 5%Z)) (3, 4)%Z
  = (project_out (rev [e1; e2]) (matvec swap (project_out [e1; e2] (3, 4)%Z))
     + 5%Z * ((3, 4)%Z - project_out [e1; e2] (3, 4)%Z))%T.
Proof. apply (projected_matvec_formula (laws := plane_laws)). Defined.

Lemma projected_eigenvector_witness :
  matvec (ProjectedTenpyLinearOperator swap [e1; e2] (Some 5%Z)) e2 = (5%Z * e2)%T.
Proof.
  apply (projected_eigenvector (laws := plane_laws)).
  - exact e1_e2_orthonormal.
  - exact swap_linear.
  - right. left.
Defined.


Lemma projected_matvec_complement_witness :
  matvec (ProjectedTenpyLinearOperator swap [e1] (Some 5%Z)) e2
  = project_out (rev [e1]) (matvec swap e2).
Proof.
  apply (projected_matvec_complement (laws := plane_laws)).
  intros o Ho. apply list_elem_of_singleton in Ho as ->. reflexivity.
Defined.


Lemma sum_matvec_Permutation_witness :
  matvec (SumTenpyLinearOperator swap [stretch; swap]) (3, 4)%Z
  = matvec (SumTenpyLinearOperator swap [swap; stretch]) (3, 4)%Z.
Proof.
  apply (sum_matvec_Permutation (laws := plane_laws)). apply perm_swap.
Defined.

Lemma matvec_linear_witness :
  linear (matvec (SumTenpyLinearOperator shifted_projected_swap [stretch; swap])).
Proof.
  apply (matvec_linear (laws := plane_laws)). simpl.
  repeat split; first [ apply swap_linear | apply stretch_linear ].
Defined.

Lemma unwrapped_never_ValueError_witness :
  unwrapped 2 wrapped_swap true = Ok (innermost wrapped_swap) \/
  unwrapped 2 wrapped_swap true = Raise RecursionError.
Proof. apply (unwrapped_never_ValueError 2 wrapped_swap). reflexivity. Defined.

Lemma init_too_few_legs_witness :
  TensorLinearOperator_new flag_contract leg_idx (with_to_matrix TensorLinearOperator_class)
    one_leg (inl (-1)%Z) = Raise IndexError.
Proof.
  apply (init_too_few_legs flag_contract leg_idx (with_to_matrix TensorLinearOperator_class)
           one_leg).
  - reflexivity.
  - unfold num_legs. simpl. lia.
Defined.

Lemma init_constructed_witness :
  TensorLinearOperator_init flag_contract leg_idx dual_legs (inl (-1)%Z)
    = Ok dual_legs_operator /\
  (exists leg0 leg1, legs dual_legs = [leg0; leg1] /\ flag_contract leg0 leg1 = true) /\
  other_leg dual_legs_operator = (1 - which_leg dual_legs_operator)%Z.
Proof.
  split; [ reflexivity | ].
  destruct (init_constructed flag_contract leg_idx dual_legs (inl (-1)%Z)
              dual_legs_operator eq_refl) as [_ [Hlegs [_ [Hother _]]]].
  split; [ exact Hlegs | exact Hother ].
Defined.

End SparseFacts.

(** ** The benchmark helpers *)

Module BenchmarkMiscFacts.

Import BackendFactory BackendFactoryFacts BenchmarkMisc.

Section Parse.

Context {Symmetry : Type} `{SymmetryModel Symmetry} `{BackendConstructors}.
Variable repr : list string -> string.

Lemma str_in_VALID_SYMMETRY_BACKENDS x :
  str_in x VALID_SYMMETRY_BACKENDS = true ->
  x = "abelian" \/ x = "no_symmetry" \/ x = "nonabelian".
Proof.
  unfold VALID_SYMMETRY_BACKENDS. intros Hin.
  repeat (apply str_in_cons in Hin as [-> | Hin]; [ tauto | ]).
  vm_compute in Hin. discriminate.
Qed.

Lemma str_in_VALID_BLOCK_BACKENDS x :
  str_in x VALID_BLOCK_BACKENDS = true -> x = "numpy" \/ x = "torch" \/ x = "gpu".
Proof.
  unfold VALID_BLOCK_BACKENDS. intros Hin.
  repeat (apply str_in_cons in Hin as [-> | Hin]; [ tauto | ]).
  vm_compute in Hin. discriminate.
Qed.

Lemma parse_backend_Ok backend sb bb :
  parse_backend repr backend = Ok (sb, bb) ->
  (sb = "abelian" \/ sb = "no_symmetry" \/ sb = "nonabelian") /\
  (bb = "numpy" \/ bb = "torch" \/ bb = "gpu").
Proof.
  unfold parse_backend.
  destruct backend as [ | b0 [ | b1 [ | b2 rest ] ] ]; try discriminate.
  - destruct (str_in b0 VALID_SYMMETRY_BACKENDS) eqn:Hs.
    + intros [= <- <-]. split; [ apply str_in_VALID_SYMMETRY_BACKENDS, Hs | tauto ].
    + destruct (str_in b0 VALID_BLOCK_BACKENDS) eqn:Hb; [ | discriminate ].
      intros [= <- <-]. split; [ tauto | apply str_in_VALID_BLOCK_BACKENDS, Hb ].
  - destruct (str_in b0 VALID_SYMMETRY_BACKENDS && str_in b1 VALID_BLOCK_BACKENDS) eqn:H1.
    + apply andb_prop in H1 as [Hs Hb]. intros [= <- <-].
      split; [ apply str_in_VALID_SYMMETRY_BACKENDS, Hs | apply str_in_VALID_BLOCK_BACKENDS, Hb ].
    + destruct (str_in b0 VALID_BLOCK_BACKENDS && str_in b1 VALID_SYMMETRY_BACKENDS) eqn:H2;
        [ | discriminate ].
      apply andb_prop in H2 as [Hb Hs]. intros [= <- <-].
      split; [ apply str_in_VALID_SYMMETRY_BACKENDS, Hs | apply str_in_VALID_BLOCK_BACKENDS, Hb ].
Qed.

(** X19.  What [parse_backend] accepts passes the assertions of [get_backend]
    and names an implemented entry of the table, so that the call returns a
    backend when the constructors of the backend classes return; except for
    the kind 'nonabelian', where the call raises KeyError. *)
Theorem parse_backend_get_backend backend sb bb (symmetry : Symmetry) st :
  parse_backend repr backend = Ok (sb, bb) ->
  (forall cls kwargs, is_ok (construct cls kwargs) = true) ->
  if String.eqb sb "nonabelian"
  then get_backend symmetry bb (Some sb) st = (Raise (KeyError "nonabelian"), st)
  else is_ok (resolve symmetry bb (Some sb)) = true /\
       is_ok (get_backend symmetry bb (Some sb) st).1 = true.
Proof.
  intros Hparse Hctor. apply parse_backend_Ok in Hparse as [Hs Hb].
  destruct Hs as [-> | [-> | ->]]; destruct Hb as [-> | [-> | ->]]; cbn [String.eqb];
    first [ reflexivity
          | split; [ reflexivity | rewrite is_ok_get_backend by exact Hctor; reflexivity ] ].
Qed.

(** X20.  The two parts of a specification may come in either order. *)
Theorem parse_backend_either_order b0 b1 r :
  parse_backend repr [b0; b1] = Ok r -> parse_backend repr [b1; b0] = Ok r.
Proof.
  unfold parse_backend.
  destruct (str_in b0 VALID_SYMMETRY_BACKENDS && str_in b1 VALID_BLOCK_BACKENDS) eqn:H1.
  - apply andb_prop in H1 as [Hs Hb]. intros [= <-].
    apply str_in_VALID_SYMMETRY_BACKENDS in Hs. apply str_in_VALID_BLOCK_BACKENDS in Hb.
    destruct Hs as [-> | [-> | ->]]; destruct Hb as [-> | [-> | ->]]; reflexivity.
  - destruct (str_in b0 VALID_BLOCK_BACKENDS && str_in b1 VALID_SYMMETRY_BACKENDS) eqn:H2;
      [ | discriminate ].
    apply andb_prop in H2 as [Hb Hs]. intros [= <-].
    apply str_in_VALID_SYMMETRY_BACKENDS in Hs. apply str_in_VALID_BLOCK_BACKENDS in Hb.
    destruct Hs as [-> | [-> | ->]]; destruct Hb as [-> | [-> | ->]]; reflexivity.
Qed.

End Parse.

Lemma parse_backend_get_backend_witness :
  is_ok (get_backend U1Symmetry "gpu" (Some "abelian") initial).1 = true.
Proof.
  apply (parse_backend_get_backend (String.concat ", ") ["gpu"] "abelian" "gpu"
           U1Symmetry initial); reflexivity.
Defined.

Lemma parse_backend_either_order_witness :
  parse_backend (String.concat ", ") ["no_symmetry"; "torch"] = Ok ("no_symmetry", "torch").
Proof.
  apply (parse_backend_either_order (String.concat ", ") "torch" "no_symmetry").
  reflexivity.
Defined.

End BenchmarkMiscFacts.
